(** * check_file_header.py: the file-path header hook

    A shallow embedding of [.pre-commit-hooks/check_file_header.py] and the
    properties of its two functions, [fix_file_header] and [main].

    Python [str] values are sequences of Unicode code points, so a string is
    a list of code points ([N]).  The file system, standard output and the
    exceptions raised by [open] are explicit: the two functions live in a
    state-and-exception monad over a [world].

    A file holds its decoded text; reading applies the universal-newlines
    translation of text mode and writing stores the text as it is (the
    POSIX behaviour).  Whether a write goes through is a property of the
    file: [open] may raise before the file is touched, or the write may
    raise after [open] has truncated the file, leaving only the part of
    the text that had reached it.  [print] is taken to succeed. *)

From Stdlib Require Import NArith ZArith Ascii String.
From stdpp Require Import base list gmap.

(** ** Strings *)

Module Str.

Local Open Scope N_scope.

Definition char : Type := N.
Definition str : Type := list char.

(** An ASCII literal as a Python string. *)
Fixpoint py (x : string) : str :=
  match x with
  | EmptyString => []
  | String a x' => N_of_ascii a :: py x'
  end.

Definition LF : char := 10.
Definition CR : char := 13.
Definition slash : char := 47.
Definition backslash : char := 92.

(** ['\n'] *)
Definition nl : str := [LF].

(** An ASCII literal followed by ['\n']: one terminated line. *)
Definition line (x : string) : str := py x ++ nl.

(** An ASCII literal followed by ["\r\n"]: a line as a DOS file holds it. *)
Definition crlf_line (x : string) : str := py x ++ [CR; LF].

(** [str.isspace] on one code point: the code points CPython's
    [_PyUnicode_IsWhitespace] accepts. *)
Definition isspace (c : char) : bool :=
  ((9 <=? c) && (c <=? 13)) || ((28 <=? c) && (c <=? 32))
  || (c =? 133) || (c =? 160) || (c =? 5760)
  || ((8192 <=? c) && (c <=? 8202))
  || (c =? 8232) || (c =? 8233) || (c =? 8239) || (c =? 8287)
  || (c =? 12288).

(** [s.rstrip()]: drop the trailing run of whitespace. *)
Fixpoint rstrip (s : str) : str :=
  match s with
  | [] => []
  | c :: s' =>
      match rstrip s' with
      | [] => if isspace c then [] else [c]
      | r => c :: r
      end
  end.

(** [s.startswith(pre)] *)
Fixpoint startswith (pre s : str) : bool :=
  match pre, s with
  | [], _ => true
  | _ :: _, [] => false
  | a :: pre', b :: s' => (a =? b) && startswith pre' s'
  end.

(** [needle in hay] *)
Fixpoint contains (needle hay : str) : bool :=
  startswith needle hay ||
  match hay with
  | [] => false
  | _ :: hay' => contains needle hay'
  end.

(** [s.replace(old, new)] for one-character [old] and [new]. *)
Definition replace (old new : char) (s : str) : str :=
  map (fun c => if c =? old then new else c) s.

(** [a == b] on strings. *)
Fixpoint eqb (a b : str) : bool :=
  match a, b with
  | [], [] => true
  | x :: a', y :: b' => (x =? y) && eqb a' b'
  | _, _ => false
  end.

(** [l.insert(i, x)] for [i >= 0]: an index past the end appends. *)
Definition list_insert_at {A} (i : nat) (x : A) (l : list A) : list A :=
  take i l ++ x :: drop i l.

(** What text mode with universal newlines hands to the program:
    ["\r\n"] and a lone ["\r"] both read as ["\n"]. *)
Fixpoint universal_newlines (s : str) : str :=
  match s with
  | [] => []
  | c :: s' =>
      if c =? CR then
        LF :: match s' with
              | d :: s'' =>
                  if d =? LF then universal_newlines s''
                  else universal_newlines s'
              | [] => []
              end
      else c :: universal_newlines s'
  end.

(** Cut a text into lines, each keeping its ['\n']; the last line has
    none when the text does not end in one. *)
Fixpoint split_lines (s : str) : list str :=
  match s with
  | [] => []
  | c :: s' =>
      if c =? LF then [c] :: split_lines s'
      else match split_lines s' with
           | [] => [[c]]
           | l :: ls => (c :: l) :: ls
           end
  end.

End Str.
Import Str.

Arguments py : simpl never.


(** ** The world: files, standard output, and the calls to [open] *)

(** How a write to a file goes.  [open(..., 'w')] truncates the file, and
    the [try] of lines 77 to 79 covers [open], [writelines] and the close
    of the [with] block:
    - [Writable]: the write goes through;
    - [OpenRaises]: [open] raises and the file is not touched;
    - [WriteRaises kept]: [open] went through and truncated the file, then
      [writelines] or the close raised when [kept] characters of the text
      had reached the file (disk full, text that cannot be encoded). *)
Inductive write_mode : Type :=
| Writable
| OpenRaises
| WriteRaises (kept : nat).

(** A file as the program meets it: its decoded text, whether [open]
    succeeds on it for reading, and how a write to it goes.  A file that
    cannot be decoded as UTF-8 behaves like an unreadable one (the read
    raises). *)
Record file : Type := MkFile {
  content : str;
  readable : bool;
  mode : write_mode
}.

(** A file by two flags: one that can be written, or one on which [open]
    raises. *)
Definition File (c : str) (r w : bool) : file :=
  MkFile c r (if w then Writable else OpenRaises).

(** The write goes through. *)
Definition writable (f : file) : bool :=
  match mode f with
  | Writable => true
  | _ => false
  end.

(** The lines of a file as text mode reads them. *)
Definition file_lines (f : file) : list str :=
  split_lines (universal_newlines (content f)).

Inductive exn : Type :=
| FileNotFoundError (filepath : str)
| PermissionError (filepath : str)
| OSError (filepath : str).

Inductive io_event : Type :=
| OpenRead (filepath : str)
| OpenWrite (filepath : str).

Definition event_path (e : io_event) : str :=
  match e with
  | OpenRead p => p
  | OpenWrite p => p
  end.

(** One constructor per [print] call of the script. *)
Inductive msg : Type :=
| MsgErrorReading (filepath : str) (e : exn)
| MsgAddedHeaderToEmpty (filepath : str)
| MsgAddedMissingHeader (filepath : str)
| MsgFixedHeaderPath (filepath : str)
| MsgWas (first_line : str)
| MsgNow (expected_comment : str)
| MsgAddedMissingBlank (filepath : str)
| MsgAddedBlank (filepath : str)
| MsgErrorWriting (filepath : str) (e : exn)
| MsgNoFiles
| MsgFilesFixed.

Record world : Type := World {
  fs : gmap str file;
  stdout : list msg;
  io_log : list io_event
}.

(** ** A state-and-exception monad over the world *)

Inductive result (A : Type) : Type :=
| Val (a : A)
| Raise (e : exn).
Arguments Val {A} a.
Arguments Raise {A} e.

Definition M (A : Type) : Type := world -> result A * world.

Definition ret {A} (a : A) : M A := fun w => (Val a, w).

Definition bind {A B} (m : M A) (k : A -> M B) : M B :=
  fun w =>
    match m w with
    | (Val a, w') => k a w'
    | (Raise e, w') => (Raise e, w')
    end.

(** [try: body / except Exception as e: handler e], followed by [orelse]
    when the body went through; neither the handler nor what follows is
    protected by the [try]. *)
Definition try_except {A B} (body : M A) (handler : exn -> M B)
    (orelse : A -> M B) : M B :=
  fun w =>
    match body w with
    | (Val a, w') => orelse a w'
    | (Raise e, w') => handler e w'
    end.

(** stdpp's monad notations: [x ← m; k] and [m;; k]. *)
#[global] Instance M_ret : MRet M := @ret.
#[global] Instance M_bind : MBind M := fun A B k m => bind m k.

Definition print (m : msg) : M unit :=
  fun w => (Val tt, World (fs w) (stdout w ++ [m]) (io_log w)).

Definition log_io (e : io_event) (w : world) : world :=
  World (fs w) (stdout w) (io_log w ++ [e]).

(** [with open(filepath, 'r', encoding='utf-8') as f: f.readlines()] *)
Definition read_lines (filepath : str) : M (list str) :=
  fun w =>
    let w' := log_io (OpenRead filepath) w in
    match fs w !! filepath with
    | None => (Raise (FileNotFoundError filepath), w')
    | Some f =>
        if readable f
        then (Val (split_lines (universal_newlines (content f))), w')
        else (Raise (PermissionError filepath), w')
    end.

(** [with open(filepath, 'w', encoding='utf-8') as f: f.writelines(lines)].
    When [open] raises the file is as it was; when the write raises later
    the file, truncated by [open], holds the first [kept] characters of
    the text. *)
Definition write_lines (filepath : str) (lines : list str) : M unit :=
  fun w =>
    let w' := log_io (OpenWrite filepath) w in
    match fs w !! filepath with
    | None =>
        (Val tt, World (<[filepath := File (concat lines) true true]> (fs w'))
                       (stdout w') (io_log w'))
    | Some f =>
        match mode f with
        | Writable =>
            (Val tt,
             World (<[filepath := File (concat lines) (readable f) true]> (fs w'))
                   (stdout w') (io_log w'))
        | OpenRaises => (Raise (PermissionError filepath), w')
        | WriteRaises kept =>
            (Raise (OSError filepath),
             World (<[filepath := MkFile (take kept (concat lines)) (readable f)
                                         (WriteRaises kept)]> (fs w'))
                   (stdout w') (io_log w'))
        end
    end.

(** ** [fix_file_header] *)

Definition expected_comment (filepath : str) : str :=
  let expected_path := replace backslash slash filepath in
  py "// " ++ expected_path.

(** The local variables of the check: [lines], [needs_fix], and what was
    printed so far.  The check does nothing but compute and print, so its
    messages are gathered in order and printed when it is done. *)
Definition locals : Type := list str * bool * list msg.

(** Lines 47 to 61: the first line.  The script comes here only with a
    non-empty [lines], so [lines[0]] is in range. *)
Definition check_first_line (filepath : str) (lines : list str) : locals :=
  let first_line := rstrip (lines !!! 0%nat) in
  if negb (startswith (py "//") first_line) then
    (list_insert_at 1 nl (list_insert_at 0 (expected_comment filepath ++ nl) lines),
     true,
     [MsgAddedMissingHeader filepath])
  else if negb (eqb first_line (expected_comment filepath)) then
    (<[0%nat := expected_comment filepath ++ nl]> lines,
     true,
     [MsgFixedHeaderPath filepath; MsgWas first_line;
      MsgNow (expected_comment filepath)])
  else (lines, false, []).

(** Lines 63 to 73: the second line, after the first was dealt with;
    [lines[1]] is read only when [len(lines) >= 2]. *)
Definition check_second_line (filepath : str) (st : locals) : locals :=
  let '(lines, needs_fix, out) := st in
  if (length lines <? 2)%nat then
    (list_insert_at 1 nl lines, true, out ++ [MsgAddedMissingBlank filepath])
  else if negb (eqb (rstrip (lines !!! 1%nat)) []) then
    (list_insert_at 1 nl lines, true, out ++ [MsgAddedBlank filepath])
  else (lines, needs_fix, out).

(** Lines 37 to 73: the whole check-and-fix phase on the lines read. *)
Definition check_header (filepath : str) (lines : list str) : locals :=
  if (length lines =? 0)%nat then
    ([expected_comment filepath ++ nl; nl], true,
     [MsgAddedHeaderToEmpty filepath])
  else check_second_line filepath (check_first_line filepath lines).

Fixpoint print_all (ms : list msg) : M unit :=
  match ms with
  | [] => ret tt
  | m :: ms' => print m;; print_all ms'
  end.

(** Returns [true] for "already valid" and [false] for "fixed", as the
    docstring says. *)
Definition fix_file_header (filepath : str) : M bool :=
  try_except (read_lines filepath)
    (fun e => print (MsgErrorReading filepath e);; ret true)
    (fun lines =>
       let '(lines, needs_fix, out) := check_header filepath lines in
       print_all out;;
       if needs_fix then
         try_except (write_lines filepath lines)
           (fun e => print (MsgErrorWriting filepath e);; ret true)
           (fun _ => ret false)
       else ret true).

(** ** [main] *)

(** The test of line 100. *)
Definition skipped (filepath : str) : bool :=
  contains (py "node_modules") filepath || contains (py ".git") filepath.

(** The [for] loop of lines 98 to 104, with [all_valid] as accumulator. *)
Fixpoint main_loop (files_to_check : list str) (all_valid : bool) : M bool :=
  match files_to_check with
  | [] => ret all_valid
  | filepath :: rest =>
      if skipped filepath then main_loop rest all_valid
      else
        ok ← fix_file_header filepath;
        main_loop rest (if negb ok then false else all_valid)
  end.

(** [argv] is [sys.argv], the script's own name included. *)
Definition main (argv : list str) : M Z :=
  if (length argv <? 2)%nat then print MsgNoFiles;; ret 0%Z
  else
    let files_to_check := drop 1 argv in
    all_valid ← main_loop files_to_check true;
    if negb all_valid then print MsgFilesFixed;; ret 1%Z
    else ret 0%Z.

(** What the loop of [main] got back from [fix_file_header], file by file,
    for the files it did not skip. *)
Fixpoint outcomes (files_to_check : list str) (w : world) : list (str * bool) :=
  match files_to_check with
  | [] => []
  | filepath :: rest =>
      if skipped filepath then outcomes rest w
      else
        match fix_file_header filepath w with
        | (Val ok, w') => (filepath, ok) :: outcomes rest w'
        | (Raise _, _) => []
        end
  end.

(** The world after one call, by the ways the call can go. *)
Definition after_read_error (filepath : str) (e : exn) (w : world) : world :=
  World (fs w) (stdout w ++ [MsgErrorReading filepath e])
        (io_log w ++ [OpenRead filepath]).

Definition after_valid (filepath : str) (w : world) : world :=
  World (fs w) (stdout w) (io_log w ++ [OpenRead filepath]).

(** What a failed write raises, and the files it leaves. *)
Definition write_exn (filepath : str) (f : file) : exn :=
  match mode f with
  | WriteRaises _ => OSError filepath
  | _ => PermissionError filepath
  end.

Definition failed_write_fs (filepath : str) (f : file) (lines : list str)
    (m : gmap str file) : gmap str file :=
  match mode f with
  | WriteRaises kept =>
      <[filepath := MkFile (take kept (concat lines)) (readable f)
                           (WriteRaises kept)]> m
  | _ => m
  end.

Definition after_write_error (filepath : str) (f : file) (lines : list str)
    (out : list msg) (w : world) : world :=
  World (failed_write_fs filepath f lines (fs w))
        (stdout w ++ out ++ [MsgErrorWriting filepath (write_exn filepath f)])
        (io_log w ++ [OpenRead filepath; OpenWrite filepath]).

Definition after_fixed (filepath : str) (f : file) (lines : list str)
    (out : list msg) (w : world) : world :=
  World (<[filepath := File (concat lines) (readable f) true]> (fs w))
        (stdout w ++ out)
        (io_log w ++ [OpenRead filepath; OpenWrite filepath]).

(** Lines that a text file reads back as they are: each ends in its one
    ['\n'] and holds no other line break, but for the last, which may lack
    the terminator and is then not empty. *)
Definition no_break (body : str) : Prop :=
  Forall (fun c => c ≠ LF ∧ c ≠ CR) body.

Inductive lines_ok : list str → Prop :=
| lines_ok_nil : lines_ok []
| lines_ok_last (body : str) :
    body ≠ [] → no_break body → lines_ok [body]
| lines_ok_cons (body : str) (ls : list str) :
    no_break body → lines_ok ls → lines_ok ((body ++ nl) :: ls).

(** The one file the check leaves ill-formed: a single line that is the
    header comment but has no terminator. *)
Definition bare_header (filepath : str) (lines : list str) : Prop :=
  ∃ body, lines = [body] ∧ no_break body
          ∧ rstrip body = expected_comment filepath.

(** The eight ways through the check-and-fix phase, as a case table: the
    lines read, and the locals when the phase is done.  [check_header_case]
    shows the code follows it. *)
Inductive header_case (filepath : str) : list str → locals → Prop :=
| case_empty :
    header_case filepath []
      ([expected_comment filepath ++ nl; nl], true,
       [MsgAddedHeaderToEmpty filepath])
| case_missing (first : str) (rest : list str) :
    startswith (py "//") first = false →
    header_case filepath (first :: rest)
      ((expected_comment filepath ++ nl) :: nl :: first :: rest, true,
       [MsgAddedMissingHeader filepath])
| case_wrong_single (first : str) :
    startswith (py "//") first = true →
    rstrip first ≠ expected_comment filepath →
    header_case filepath [first]
      ([expected_comment filepath ++ nl; nl], true,
       [MsgFixedHeaderPath filepath; MsgWas (rstrip first);
        MsgNow (expected_comment filepath); MsgAddedMissingBlank filepath])
| case_wrong_blank (first second : str) (rest : list str) :
    startswith (py "//") first = true →
    rstrip first ≠ expected_comment filepath →
    rstrip second = [] →
    header_case filepath (first :: second :: rest)
      ((expected_comment filepath ++ nl) :: second :: rest, true,
       [MsgFixedHeaderPath filepath; MsgWas (rstrip first);
        MsgNow (expected_comment filepath)])
| case_wrong_nonblank (first second : str) (rest : list str) :
    startswith (py "//") first = true →
    rstrip first ≠ expected_comment filepath →
    rstrip second ≠ [] →
    header_case filepath (first :: second :: rest)
      ((expected_comment filepath ++ nl) :: nl :: second :: rest, true,
       [MsgFixedHeaderPath filepath; MsgWas (rstrip first);
        MsgNow (expected_comment filepath); MsgAddedBlank filepath])
| case_ok_single (first : str) :
    rstrip first = expected_comment filepath →
    header_case filepath [first]
      ([first; nl], true, [MsgAddedMissingBlank filepath])
| case_ok_blank (first second : str) (rest : list str) :
    rstrip first = expected_comment filepath →
    rstrip second = [] →
    header_case filepath (first :: second :: rest)
      (first :: second :: rest, false, [])
| case_ok_nonblank (first second : str) (rest : list str) :
    rstrip first = expected_comment filepath →
    rstrip second ≠ [] →
    header_case filepath (first :: second :: rest)
      (first :: nl :: second :: rest, true, [MsgAddedBlank filepath]).

(** Data for the concrete runs: a world with one file and nothing printed
    or opened yet, the path of the hook's documentation, and [sys.argv[0]]. *)
Definition one_file (filepath : str) (f : file) : world :=
  World {[ filepath := f ]} [] [].

Definition bot_js : str := py "src/bot.js".
Definition prog : str := py "check_file_header.py".

(** ** Facts about the string operations *)

Section StrFacts.

Local Open Scope N_scope.

Lemma eqb_eq (a b : str) : eqb a b = true ↔ a = b.
Proof.
  revert b; induction a as [|x a IH]; intros [|y b]; simpl; try easy.
  rewrite andb_true_iff, N.eqb_eq, IH. split.
  - intros [-> ->]; reflexivity.
  - intros [= -> ->]; auto.
Qed.

Lemma eqb_neq (a b : str) : eqb a b = false ↔ a ≠ b.
Proof.
  rewrite <- eqb_eq. destruct (eqb a b); split; congruence.
Qed.

Lemma rstrip_cons (c : char) (s : str) :
  rstrip (c :: s) =
    if decide (rstrip s = []) then (if isspace c then [] else [c])
    else c :: rstrip s.
Proof.
  simpl. destruct (rstrip s); case_decide; congruence.
Qed.

(** Whitespace at the end does not survive [rstrip]. *)
Lemma rstrip_app_space (s t : str) :
  Forall (fun c => isspace c = true) t → rstrip (s ++ t) = rstrip s.
Proof.
  intros Ht.
  assert (Hnil : rstrip t = []).
  { induction Ht as [|c t Hc _ IH]; [reflexivity|].
    rewrite rstrip_cons, IH, Hc. case_decide; congruence. }
  induction s as [|c s IH]; simpl.
  - exact Hnil.
  - rewrite IH. reflexivity.
Qed.

Lemma rstrip_nl (s : str) : rstrip (s ++ nl) = rstrip s.
Proof. apply rstrip_app_space. repeat constructor. Qed.

(** What is in front of a surviving character is kept. *)
Lemma rstrip_app_keep (a b : str) :
  rstrip b ≠ [] → rstrip (a ++ b) = a ++ rstrip b.
Proof.
  intros Hb. induction a as [|c a IH]; [reflexivity|].
  simpl app. rewrite rstrip_cons, IH. case_decide as E; [|reflexivity].
  destruct a; simpl in E; congruence.
Qed.

(** A prefix without whitespace is seen before and after [rstrip]. *)
Lemma startswith_rstrip (pre s : str) :
  Forall (fun c => isspace c = false) pre →
  startswith pre (rstrip s) = startswith pre s.
Proof.
  intros Hpre. revert s.
  induction Hpre as [|a pre Ha _ IH]; intros s; [by destruct (rstrip s), s|].
  destruct s as [|c s]; [reflexivity|].
  rewrite rstrip_cons. case_decide as E.
  - destruct (isspace c) eqn:Hc; simpl.
    + destruct (N.eqb_spec a c) as [->|_]; [congruence|reflexivity].
    + rewrite <- (IH s), E. reflexivity.
  - simpl. rewrite IH. reflexivity.
Qed.

Lemma startswith_comment_rstrip (s : str) :
  startswith (py "//") (rstrip s) = startswith (py "//") s.
Proof. apply startswith_rstrip. repeat constructor. Qed.

Lemma startswith_app (pre s : str) : startswith pre (pre ++ s) = true.
Proof.
  induction pre as [|a pre IH]; [reflexivity|].
  simpl. rewrite N.eqb_refl. exact IH.
Qed.

Lemma startswith_spec (pre s : str) :
  startswith pre s = true ↔ ∃ t, s = pre ++ t.
Proof.
  split.
  - revert s; induction pre as [|a pre IH]; intros s H; [by exists s|].
    destruct s as [|b s]; [discriminate|].
    simpl in H. apply andb_true_iff in H as [Hab H].
    apply N.eqb_eq in Hab as ->. destruct (IH _ H) as [t ->]. by exists t.
  - intros [t ->]. apply startswith_app.
Qed.

(** [contains] is the substring test. *)
Lemma contains_spec (needle hay : str) :
  contains needle hay = true ↔ ∃ a b, hay = a ++ needle ++ b.
Proof.
  split.
  - induction hay as [|c hay IH]; simpl; rewrite orb_true_iff.
    + intros [H|H]; [|discriminate].
      apply startswith_spec in H as [t Ht]. by exists [], t.
    + intros [H|H].
      * apply startswith_spec in H as [t Ht]. by exists [], t.
      * destruct (IH H) as (a & b & ->). by exists (c :: a), b.
  - intros (a & b & ->). induction a as [|c a IH].
    + simpl app. destruct (needle ++ b) eqn:E; simpl;
        rewrite <- E, startswith_app; reflexivity.
    + simpl. rewrite IH. apply orb_true_r.
Qed.

(** The header comment always starts with the comment marker. *)
Lemma expected_comment_startswith (filepath : str) :
  startswith (py "//") (expected_comment filepath) = true.
Proof. reflexivity. Qed.

Lemma rstrip_replace_slash (s : str) :
  rstrip (replace backslash slash s) = replace backslash slash (rstrip s).
Proof.
  induction s as [|c s IH]; [reflexivity|].
  assert (Hc : isspace (if c =? backslash then slash else c) = isspace c).
  { destruct (N.eqb_spec c backslash) as [->|_]; reflexivity. }
  unfold replace in *. rewrite (rstrip_cons c s). cbn [map].
  rewrite rstrip_cons, IH, Hc.
  destruct (rstrip s) eqn:E; simpl; repeat case_decide; try congruence.
  by destruct (isspace c).
Qed.

(** A path that is not empty and does not end in whitespace gives a
    header comment that [rstrip] leaves alone. *)
Lemma rstrip_expected_comment (filepath : str) :
  filepath ≠ [] → rstrip filepath = filepath →
  rstrip (expected_comment filepath) = expected_comment filepath.
Proof.
  intros Hne Hfix. unfold expected_comment.
  rewrite rstrip_app_keep; rewrite rstrip_replace_slash, Hfix; [reflexivity|].
  destruct filepath; [congruence|discriminate].
Qed.

End StrFacts.

(** ** Running the monadic code *)

Section Run.

Lemma print_all_run (ms : list msg) (w : world) :
  print_all ms w = (Val tt, World (fs w) (stdout w ++ ms) (io_log w)).
Proof.
  revert w; induction ms as [|m ms IH]; intros [f o l]; simpl.
  - unfold ret. by rewrite app_nil_r.
  - unfold mbind, M_bind, bind, print. simpl. rewrite IH. simpl.
    by rewrite <- app_assoc.
Qed.

Lemma read_lines_raises (filepath : str) (w w1 : world) (e : exn) :
  read_lines filepath w = (Raise e, w1) →
  (fs w !! filepath = None ∧ e = FileNotFoundError filepath
   ∨ ∃ f, fs w !! filepath = Some f ∧ readable f = false
          ∧ e = PermissionError filepath)
  ∧ w1 = log_io (OpenRead filepath) w.
Proof.
  unfold read_lines. destruct (fs w !! filepath) as [f|] eqn:E.
  - destruct (readable f) eqn:R; intros [= <- <-]. split; [right|]; eauto.
  - intros [= <- <-]. split; [left|]; eauto.
Qed.

Lemma fix_file_header_unreadable (filepath : str) (w w1 : world) (e : exn) :
  read_lines filepath w = (Raise e, w1) →
  fix_file_header filepath w = (Val true, after_read_error filepath e w).
Proof.
  intros H. destruct (read_lines_raises _ _ _ _ H) as [_ ->].
  unfold fix_file_header, try_except. rewrite H. reflexivity.
Qed.

(** The call on a readable file, by what the check found and whether
    the file can be written. *)
Lemma fix_file_header_readable (filepath : str) (w : world) (f : file)
    (lines : list str) (needs_fix : bool) (out : list msg) :
  fs w !! filepath = Some f → readable f = true →
  check_header filepath (split_lines (universal_newlines (content f)))
    = (lines, needs_fix, out) →
  fix_file_header filepath w =
    if needs_fix then
      if writable f
      then (Val false, after_fixed filepath f lines out w)
      else (Val true, after_write_error filepath f lines out w)
    else (Val true,
          World (fs w) (stdout w ++ out) (io_log w ++ [OpenRead filepath])).
Proof.
  intros Hf Hr Hc.
  unfold fix_file_header, try_except, read_lines. rewrite Hf, Hr, Hc.
  unfold mbind, M_bind, bind. rewrite print_all_run. simpl.
  destruct needs_fix; [|reflexivity].
  unfold write_lines, writable, after_write_error, write_exn,
    failed_write_fs. simpl. rewrite Hf.
  destruct (mode f); simpl.
  - unfold after_fixed. by rewrite <- app_assoc.
  - unfold print. simpl. by rewrite <- !app_assoc.
  - unfold print. simpl. by rewrite <- !app_assoc.
Qed.

(** Whatever the file system holds, the call returns a value. *)
Lemma fix_file_header_returns (filepath : str) (w : world) :
  ∃ ok w', fix_file_header filepath w = (Val ok, w').
Proof.
  destruct (read_lines filepath w) as [[lines|e] w1] eqn:R.
  - unfold read_lines in R.
    destruct (fs w !! filepath) as [f|] eqn:Hf; [|discriminate].
    destruct (readable f) eqn:Hr; [|discriminate].
    destruct (check_header filepath
                (split_lines (universal_newlines (content f))))
      as [[lines' nf] out] eqn:Hc.
    rewrite (fix_file_header_readable _ _ _ _ _ _ Hf Hr Hc).
    destruct nf, (writable f); eauto.
  - rewrite (fix_file_header_unreadable _ _ _ _ R). eauto.
Qed.

(** One call opens no file but its own and changes no other file. *)
Lemma fix_file_header_frame (filepath : str) (w w' : world) (r : result bool) :
  fix_file_header filepath w = (r, w') →
  (∀ q, q ≠ filepath → fs w' !! q = fs w !! q)
  ∧ ∃ new, io_log w' = io_log w ++ new
           ∧ Forall (fun e => event_path e = filepath) new.
Proof.
  destruct (read_lines filepath w) as [[lines|e] w1] eqn:R.
  - unfold read_lines in R.
    destruct (fs w !! filepath) as [f|] eqn:Hf; [|discriminate].
    destruct (readable f) eqn:Hr; [|discriminate].
    destruct (check_header filepath
                (split_lines (universal_newlines (content f))))
      as [[lines' nf] out] eqn:Hc.
    rewrite (fix_file_header_readable _ _ _ _ _ _ Hf Hr Hc).
    unfold after_write_error, failed_write_fs.
    destruct nf, (writable f), (mode f); intros [= <- <-]; simpl;
      (split; [intros q Hq; by rewrite ?lookup_insert_ne|]);
      eexists; (split; [reflexivity|]); repeat constructor.
  - rewrite (fix_file_header_unreadable _ _ _ _ R). intros [= <- <-]. simpl.
    split; [done|]. eexists; split; [reflexivity|]. repeat constructor.
Qed.

End Run.

(** ** The check-and-fix phase, case by case *)

Section CheckHeader.

Implicit Types (filepath first second : str) (lines rest : list str).

Lemma check_first_line_missing filepath first rest :
  startswith (py "//") first = false →
  check_first_line filepath (first :: rest) =
    ((expected_comment filepath ++ nl) :: nl :: first :: rest, true,
     [MsgAddedMissingHeader filepath]).
Proof.
  intros H. unfold check_first_line. cbn [lookup_total list_lookup_total].
  rewrite startswith_comment_rstrip, H. reflexivity.
Qed.

Lemma check_first_line_wrong filepath first rest :
  startswith (py "//") first = true →
  rstrip first ≠ expected_comment filepath →
  check_first_line filepath (first :: rest) =
    ((expected_comment filepath ++ nl) :: rest, true,
     [MsgFixedHeaderPath filepath; MsgWas (rstrip first);
      MsgNow (expected_comment filepath)]).
Proof.
  intros H Hne. unfold check_first_line. cbn [lookup_total list_lookup_total].
  rewrite startswith_comment_rstrip, H. apply eqb_neq in Hne. rewrite Hne.
  reflexivity.
Qed.

Lemma check_first_line_ok filepath first rest :
  rstrip first = expected_comment filepath →
  check_first_line filepath (first :: rest) = (first :: rest, false, []).
Proof.
  intros H. unfold check_first_line. cbn [lookup_total list_lookup_total].
  rewrite H, expected_comment_startswith.
  by rewrite (proj2 (eqb_eq _ _) eq_refl).
Qed.

Lemma check_second_line_single filepath first needs_fix out :
  check_second_line filepath ([first], needs_fix, out) =
    ([first; nl], true, out ++ [MsgAddedMissingBlank filepath]).
Proof. reflexivity. Qed.

Lemma check_second_line_nonblank filepath first second rest needs_fix out :
  rstrip second ≠ [] →
  check_second_line filepath (first :: second :: rest, needs_fix, out) =
    (first :: nl :: second :: rest, true, out ++ [MsgAddedBlank filepath]).
Proof.
  intros H. unfold check_second_line. cbn [length Nat.ltb Nat.leb].
  cbn [lookup_total list_lookup_total]. apply eqb_neq in H. rewrite H.
  reflexivity.
Qed.

Lemma check_second_line_blank filepath first second rest needs_fix out :
  rstrip second = [] →
  check_second_line filepath (first :: second :: rest, needs_fix, out) =
    (first :: second :: rest, needs_fix, out).
Proof.
  intros H. unfold check_second_line. cbn [length Nat.ltb Nat.leb].
  cbn [lookup_total list_lookup_total]. rewrite H. reflexivity.
Qed.

Lemma check_header_cons filepath first rest :
  check_header filepath (first :: rest) =
    check_second_line filepath (check_first_line filepath (first :: rest)).
Proof. reflexivity. Qed.

(** A file that already has the header and the blank line is left alone. *)
Lemma check_header_valid filepath first second rest :
  rstrip first = expected_comment filepath →
  rstrip second = [] →
  check_header filepath (first :: second :: rest) =
    (first :: second :: rest, false, []).
Proof.
  intros H1 H2.
  by rewrite check_header_cons, check_first_line_ok,
    check_second_line_blank.
Qed.

End CheckHeader.

(** ** Properties of the check-and-fix phase *)

Section HeaderProperties.

Implicit Types (filepath first second : str) (lines rest : list str).

(** After the check, the lines pass the check themselves, provided the
    path is not empty and does not end in whitespace; the lines after
    the first are all kept, in order. *)
Lemma check_header_establishes_header filepath lines :
  filepath ≠ [] → rstrip filepath = filepath →
  ∃ l0 l1 rest,
    (check_header filepath lines).1.1 = l0 :: l1 :: rest
    ∧ rstrip l0 = expected_comment filepath
    ∧ rstrip l1 = []
    ∧ drop 1 lines `suffix_of` l0 :: l1 :: rest.
Proof.
  intros Hne Hfix.
  pose proof (rstrip_expected_comment _ Hne Hfix) as Hexp.
  assert (Hhdr : rstrip (expected_comment filepath ++ nl)
                 = expected_comment filepath) by by rewrite rstrip_nl.
  destruct lines as [|first rest].
  { eexists _, _, _. split_and!; [reflexivity|done|done|].
    by apply suffix_nil. }
  rewrite check_header_cons.
  assert (Hsecond : ∀ l0 nf out,
    rstrip l0 = expected_comment filepath →
    ∃ l1 rest',
      (check_second_line filepath (l0 :: rest, nf, out)).1.1
        = l0 :: l1 :: rest'
      ∧ rstrip l1 = [] ∧ rest `suffix_of` l0 :: l1 :: rest').
  { intros l0 nf out Hl0. destruct rest as [|second rest'].
    - rewrite check_second_line_single. eexists _, _.
      split_and!; [reflexivity|done|by apply suffix_nil].
    - destruct (decide (rstrip second = [])) as [E|E].
      + rewrite check_second_line_blank by done. eexists _, _.
        split_and!; [reflexivity|done|]. by apply suffix_cons_r.
      + rewrite check_second_line_nonblank by done. eexists _, _.
        split_and!; [reflexivity|done|]. by do 2 apply suffix_cons_r. }
  destruct (startswith (py "//") first) eqn:Hs.
  - destruct (decide (rstrip first = expected_comment filepath)) as [E|E].
    + rewrite check_first_line_ok by done.
      destruct (Hsecond first false [] E) as (l1 & rest' & -> & ? & ?).
      eexists _, _, _. split_and!; [reflexivity|done|done|done].
    + rewrite check_first_line_wrong by done.
      edestruct (Hsecond (expected_comment filepath ++ nl))
        as (l1 & rest' & -> & ? & ?); [done|].
      eexists _, _, _. split_and!; [reflexivity|done|done|done].
  - rewrite check_first_line_missing by done.
    rewrite check_second_line_blank by done.
    eexists _, _, _. split_and!; [reflexivity|done|done|].
    simpl. by do 3 apply suffix_cons_r.
Qed.

End HeaderProperties.

(** ** One call on the file system *)

Section OneCall.

Implicit Types (filepath first second : str) (lines rest : list str).
Implicit Types (w : world) (f : file).

(** The call answers "fixed" exactly when the file was read, the check
    asked for a fix, and the file was written. *)
Lemma fix_file_header_fixed_inv filepath w w' :
  fix_file_header filepath w = (Val false, w') →
  ∃ f lines out,
    fs w !! filepath = Some f ∧ readable f = true ∧ writable f = true
    ∧ check_header filepath (split_lines (universal_newlines (content f)))
      = (lines, true, out)
    ∧ w' = after_fixed filepath f lines out w.
Proof.
  destruct (read_lines filepath w) as [[lines0|e] w1] eqn:R.
  - unfold read_lines in R.
    destruct (fs w !! filepath) as [f|] eqn:Hf; [|discriminate].
    destruct (readable f) eqn:Hr; [|discriminate].
    destruct (check_header filepath
                (split_lines (universal_newlines (content f))))
      as [[lines nf] out] eqn:Hc.
    rewrite (fix_file_header_readable _ _ _ _ _ _ Hf Hr Hc).
    destruct nf, (writable f) eqn:Hw; intros [= <-]. by exists f, lines, out.
  - by rewrite (fix_file_header_unreadable _ _ _ _ R).
Qed.

(** The first two lines after the check: each is either the one the
    tool puts there or the file's own, accepted by the check. *)
Lemma check_header_first_two filepath lines :
  ∃ l0 l1 rest,
    (check_header filepath lines).1.1 = l0 :: l1 :: rest
    ∧ (l0 = expected_comment filepath ++ nl
       ∨ lines !! 0%nat = Some l0 ∧ rstrip l0 = expected_comment filepath)
    ∧ (l1 = nl ∨ lines !! 1%nat = Some l1 ∧ rstrip l1 = []).
Proof.
  destruct lines as [|first rest].
  { eexists _, _, _. split_and!; [reflexivity|by left|by left]. }
  rewrite check_header_cons.
  assert (Hsecond : ∀ l0 nf out,
    ∃ l1 rest',
      (check_second_line filepath (l0 :: rest, nf, out)).1.1
        = l0 :: l1 :: rest'
      ∧ (l1 = nl ∨ (first :: rest) !! 1%nat = Some l1 ∧ rstrip l1 = [])).
  { intros l0 nf out. destruct rest as [|second rest'].
    - rewrite check_second_line_single. eexists _, _.
      split; [reflexivity|by left].
    - destruct (decide (rstrip second = [])) as [E|E].
      + rewrite check_second_line_blank by done. eexists _, _.
        split; [reflexivity|by right].
      + rewrite check_second_line_nonblank by done. eexists _, _.
        split; [reflexivity|by left]. }
  destruct (startswith (py "//") first) eqn:Hs.
  - destruct (decide (rstrip first = expected_comment filepath)) as [E|E].
    + rewrite check_first_line_ok by done.
      destruct (Hsecond first false []) as (l1 & rest' & -> & ?).
      eexists _, _, _. split_and!; [reflexivity|by right|done].
    + rewrite check_first_line_wrong by done.
      edestruct (Hsecond (expected_comment filepath ++ nl))
        as (l1 & rest' & -> & ?).
      eexists _, _, _. split_and!; [reflexivity|by left|done].
  - rewrite check_first_line_missing by done.
    rewrite check_second_line_blank by done.
    eexists _, _, _. split_and!; [reflexivity|by left|by left].
Qed.

(** A file that has the header and the blank line is read and nothing
    more: the call answers "already valid", prints nothing and does not
    open the file for writing. *)
Lemma fix_file_header_valid_file filepath w f first second rest :
  fs w !! filepath = Some f → readable f = true →
  split_lines (universal_newlines (content f)) = first :: second :: rest →
  rstrip first = expected_comment filepath →
  rstrip second = [] →
  fix_file_header filepath w = (Val true, after_valid filepath w).
Proof.
  intros Hf Hr Hl H1 H2.
  pose proof (check_header_valid filepath first second rest H1 H2) as Hc.
  rewrite <- Hl in Hc.
  rewrite (fix_file_header_readable _ _ _ _ _ _ Hf Hr Hc).
  unfold after_valid. by rewrite app_nil_r.
Qed.

End OneCall.

(** ** The driver *)

Section Driver.

Implicit Types (filepath : str) (files before after argv : list str).
Implicit Types (w : world) (all_valid : bool).

Lemma main_loop_skip filepath rest all_valid w :
  skipped filepath = true →
  main_loop (filepath :: rest) all_valid w = main_loop rest all_valid w.
Proof. intros H. simpl. by rewrite H. Qed.

Lemma main_loop_call filepath rest all_valid w ok w' :
  skipped filepath = false →
  fix_file_header filepath w = (Val ok, w') →
  main_loop (filepath :: rest) all_valid w =
    main_loop rest (if negb ok then false else all_valid) w'.
Proof.
  intros Hs H. simpl. rewrite Hs. unfold mbind, M_bind, bind.
  by rewrite H.
Qed.

Lemma main_loop_app before after all_valid w :
  main_loop (before ++ after) all_valid w =
    match main_loop before all_valid w with
    | (Val v, w') => main_loop after v w'
    | (Raise e, w') => (Raise e, w')
    end.
Proof.
  revert all_valid w; induction before as [|p before IH]; intros av w.
  - reflexivity.
  - simpl app. destruct (skipped p) eqn:Hs.
    + rewrite !main_loop_skip by done. apply IH.
    + destruct (fix_file_header_returns p w) as (ok & w1 & H).
      rewrite !(main_loop_call _ _ _ _ _ _ Hs H). apply IH.
Qed.

(** The loop never raises, and [all_valid] comes out true exactly when
    it went in true and no call answered "fixed". *)
Lemma main_loop_outcomes files all_valid w :
  ∃ w', main_loop files all_valid w =
          (Val (all_valid && forallb snd (outcomes files w)), w').
Proof.
  revert all_valid w; induction files as [|p files IH]; intros av w.
  - exists w. simpl. by rewrite andb_true_r.
  - destruct (skipped p) eqn:Hs.
    + rewrite main_loop_skip by done. simpl. rewrite Hs. apply IH.
    + destruct (fix_file_header_returns p w) as (ok & w1 & H).
      rewrite (main_loop_call _ _ _ _ _ _ Hs H). simpl. rewrite Hs, H.
      destruct (IH (if negb ok then false else av) w1) as [w' ->].
      exists w'. simpl. by destruct ok, av.
Qed.

Lemma main_exit_code argv w :
  (main argv w).1 =
    Val (if forallb snd (outcomes (drop 1 argv) w) then 0%Z else 1%Z).
Proof.
  unfold main. destruct (length argv <? 2)%nat eqn:Hl.
  - apply Nat.ltb_lt in Hl. destruct argv as [|a [|b argv]]; simpl in *;
      [reflexivity|reflexivity|lia].
  - unfold mbind, M_bind, bind.
    destruct (main_loop_outcomes (drop 1 argv) true w) as [w' ->].
    simpl. by destruct (forallb snd (outcomes (drop 1 argv) w)).
Qed.

(** The loop touches no skipped path: its file stays as it was and no
    [open] names it. *)
Lemma main_loop_frame files all_valid w r w' q :
  main_loop files all_valid w = (r, w') →
  skipped q = true →
  fs w' !! q = fs w !! q
  ∧ ∃ new, io_log w' = io_log w ++ new
           ∧ Forall (fun e => event_path e ≠ q) new.
Proof.
  intros H Hq. revert all_valid w H.
  induction files as [|p files IH]; intros av w H.
  - injection H as <- <-. split; [done|]. exists []. by rewrite app_nil_r.
  - destruct (skipped p) eqn:Hs.
    + rewrite main_loop_skip in H by done. by eapply IH.
    + destruct (fix_file_header_returns p w) as (ok & w1 & Hc).
      rewrite (main_loop_call _ _ _ _ _ _ Hs Hc) in H.
      destruct (IH _ _ H) as (Hfs & new2 & Hlog & Hall).
      destruct (fix_file_header_frame _ _ _ _ Hc)
        as (Hfs1 & new1 & Hlog1 & Hall1).
      assert (Hne : q ≠ p) by congruence.
      split; [by rewrite Hfs, Hfs1|].
      exists (new1 ++ new2). split; [by rewrite Hlog, Hlog1, app_assoc|].
      apply Forall_app; split; [|done].
      eapply Forall_impl; [exact Hall1|]. simpl. congruence.
Qed.

(** Reading fails or not by what the file system holds, not by what was
    printed or opened before. *)
Lemma read_lines_raise_fs filepath w w1 e w2 :
  read_lines filepath w = (Raise e, w1) →
  fs w2 = fs w →
  read_lines filepath w2 = (Raise e, log_io (OpenRead filepath) w2).
Proof.
  unfold read_lines. intros H ->.
  destruct (fs w !! filepath) as [f|]; [destruct (readable f)|];
    by injection H as <- _.
Qed.

Lemma main_loop_all_unreadable files all_valid w :
  Forall (fun p => ∃ e w1, read_lines p w = (Raise e, w1)) files →
  ∃ w', main_loop files all_valid w = (Val all_valid, w') ∧ fs w' = fs w.
Proof.
  intros Hall. revert w Hall.
  induction files as [|p files IH]; intros w Hall.
  - by exists w.
  - apply Forall_cons in Hall as [(e & w1 & Hp) Hall].
    destruct (skipped p) eqn:Hs.
    + rewrite main_loop_skip by done. by apply IH.
    + pose proof (fix_file_header_unreadable _ _ _ _ Hp) as Hc.
      rewrite (main_loop_call _ _ _ _ _ _ Hs Hc). simpl.
      destruct (IH (after_read_error p e w)) as (w' & -> & Hfs).
      * eapply Forall_impl; [exact Hall|]. simpl.
        intros q (e' & w1' & Hq). do 2 eexists.
        by eapply read_lines_raise_fs.
      * by exists w'.
Qed.

(** C4: when reading the file raises, the call catches the exception:
    it prints the read error, answers "already valid" and leaves the
    file system as it was; the loop of [main] goes on with the files
    that remain, [all_valid] untouched, and a run in which every file
    fails to be read exits with 0. *)
Theorem C4_read_failure_caught filepath w e w1 :
  read_lines filepath w = (Raise e, w1) →
  fix_file_header filepath w = (Val true, after_read_error filepath e w)
  ∧ fs (after_read_error filepath e w) = fs w
  ∧ (∀ rest all_valid,
       skipped filepath = false →
       main_loop (filepath :: rest) all_valid w =
         main_loop rest all_valid (after_read_error filepath e w))
  ∧ (∀ prog rest,
       Forall (fun p => ∃ e' w1', read_lines p w = (Raise e', w1')) rest →
       (main (prog :: filepath :: rest) w).1 = Val 0%Z).
Proof.
  intros H. pose proof (fix_file_header_unreadable _ _ _ _ H) as Hc.
  split_and!; [done|done| |].
  - intros rest av Hs. by rewrite (main_loop_call _ _ _ _ _ _ Hs Hc).
  - intros prog rest Hall. unfold main.
    cbn [length Nat.ltb Nat.leb drop]. unfold mbind, M_bind, bind.
    destruct (main_loop_all_unreadable (filepath :: rest) true w)
      as (w' & Hloop & _); [apply Forall_cons; split; eauto|].
    by rewrite Hloop.
Qed.

Lemma forallb_snd_false (l : list (str * bool)) :
  forallb snd l = false ↔ ∃ filepath, (filepath, false) ∈ l.
Proof.
  induction l as [|[p ok] l IH]; simpl.
  - split; [discriminate|]. intros [? H]. by apply elem_of_nil in H.
  - rewrite andb_false_iff, IH. split.
    + intros [->|[q Hq]]; [exists p; left|exists q; by right].
    + intros [q Hq]. apply elem_of_cons in Hq as [[= -> ->]|Hq]; eauto.
Qed.

Lemma forallb_snd_true (l : list (str * bool)) :
  forallb snd l = true ↔ ∀ filepath ok, (filepath, ok) ∈ l → ok = true.
Proof.
  rewrite forallb_forall. split.
  - intros H p ok Hp. by apply list_elem_of_In, H in Hp.
  - intros H [p ok] Hp. apply list_elem_of_In in Hp. simpl. eauto.
Qed.

(** C5: [main] exits with 1 exactly when some file it processed came
    back "fixed", and with 0 exactly when every processed file came back
    "already valid"; without file arguments it prints "No files to
    check" and exits with 0 at once. *)
Theorem C5_exit_code argv w :
  ((main argv w).1 = Val 1%Z
   ↔ ∃ filepath, (filepath, false) ∈ outcomes (drop 1 argv) w)
  ∧ ((main argv w).1 = Val 0%Z
     ↔ ∀ filepath ok, (filepath, ok) ∈ outcomes (drop 1 argv) w → ok = true)
  ∧ main [] w = (Val 0%Z, World (fs w) (stdout w ++ [MsgNoFiles]) (io_log w))
  ∧ ∀ prog,
      main [prog] w
      = (Val 0%Z, World (fs w) (stdout w ++ [MsgNoFiles]) (io_log w)).
Proof.
  rewrite main_exit_code, <- forallb_snd_false, <- forallb_snd_true.
  destruct (forallb snd (outcomes (drop 1 argv) w));
    split_and!; try done; split; congruence.
Qed.

Lemma outcomes_skip before filepath after w :
  skipped filepath = true →
  outcomes (before ++ filepath :: after) w = outcomes (before ++ after) w.
Proof.
  intros Hs. revert w; induction before as [|p before IH]; intros w; simpl.
  - by rewrite Hs.
  - destruct (skipped p); [apply IH|].
    destruct (fix_file_header p w) as [[ok|e] w1]; [|done]. by rewrite IH.
Qed.

(** [main] adds nothing to the loop but what it prints. *)
Lemma main_world argv w :
  let wl := (main_loop (drop 1 argv) true w).2 in
  ∃ out, (main argv w).2 = World (fs wl) (stdout wl ++ out) (io_log wl).
Proof.
  unfold main. destruct (length argv <? 2)%nat eqn:Hl.
  - apply Nat.ltb_lt in Hl. exists [MsgNoFiles].
    destruct argv as [|a [|b argv]]; simpl in *; [done|done|lia].
  - unfold mbind, M_bind, bind.
    destruct (main_loop_outcomes (drop 1 argv) true w) as [[f o l] ->].
    destruct (true && forallb snd (outcomes (drop 1 argv) w)); simpl.
    + exists []. by rewrite app_nil_r.
    + by exists [MsgFilesFixed].
Qed.

(** C10: a path that contains "node_modules" or ".git" anywhere is
    skipped by [main]: with or without it in the arguments the loop does
    the same, the exit code and the files are the same, its file is
    never opened and stays as it was.  So ".github/workflows/ci.yml" and
    "budget.gitlog" are skipped, and "widget.js" is not. *)
Theorem C10_excluded_paths_skipped filepath :
  contains (py "node_modules") filepath = true
  ∨ contains (py ".git") filepath = true →
  (∀ before after all_valid w,
     main_loop (before ++ filepath :: after) all_valid w
     = main_loop (before ++ after) all_valid w)
  ∧ (∀ prog before after w,
       (main (prog :: before ++ filepath :: after) w).1
       = (main (prog :: before ++ after) w).1
       ∧ fs (main (prog :: before ++ filepath :: after) w).2
         = fs (main (prog :: before ++ after) w).2
       ∧ io_log (main (prog :: before ++ filepath :: after) w).2
         = io_log (main (prog :: before ++ after) w).2)
  ∧ (∀ argv w,
       fs (main argv w).2 !! filepath = fs w !! filepath
       ∧ ∃ new, io_log (main argv w).2 = io_log w ++ new
                ∧ Forall (fun e => event_path e ≠ filepath) new)
  ∧ skipped (py ".github/workflows/ci.yml") = true
  ∧ skipped (py "budget.gitlog") = true
  ∧ skipped (py "widget.js") = false.
Proof.
  intros H.
  assert (Hs : skipped filepath = true).
  { unfold skipped. apply orb_true_iff. exact H. }
  assert (Hloop : ∀ before after all_valid w,
     main_loop (before ++ filepath :: after) all_valid w
     = main_loop (before ++ after) all_valid w).
  { intros before after av w. rewrite !main_loop_app.
    destruct (main_loop before av w) as [[v|e] w1]; [|done].
    by apply main_loop_skip. }
  split_and!; [done| | |by vm_compute|by vm_compute|by vm_compute].
  - intros prog before after w. split.
    + rewrite !main_exit_code. cbn [drop]. rewrite !drop_0.
      by rewrite outcomes_skip.
    + destruct (main_world (prog :: before ++ filepath :: after) w)
        as [out1 ->].
      destruct (main_world (prog :: before ++ after) w) as [out2 ->].
      cbn [drop fs io_log]. rewrite !drop_0. by rewrite Hloop.
  - intros argv w. destruct (main_world argv w) as [out ->]. cbn [fs io_log].
    destruct (main_loop (drop 1 argv) true w) as [r wl] eqn:E.
    by eapply main_loop_frame.
Qed.

End Driver.

(** ** Reading back what was written *)

Section ReadBack.

Local Open Scope N_scope.

Implicit Types (filepath body s : str) (lines ls : list str).

Lemma universal_newlines_no_cr s :
  Forall (fun c => c ≠ CR) (universal_newlines s).
Proof.
  induction s as [s IH] using (induction_ltof1 _ (@length char)).
  unfold ltof in IH. destruct s as [|c s]; [constructor|].
  simpl. destruct (N.eqb_spec c CR) as [->|Hc].
  - constructor; [done|]. destruct s as [|d s]; [constructor|].
    destruct (d =? LF); apply IH; simpl; lia.
  - constructor; [done|]. apply IH. simpl. lia.
Qed.

Lemma universal_newlines_id s :
  Forall (fun c => c ≠ CR) s → universal_newlines s = s.
Proof.
  induction 1 as [|c s Hc _ IH]; [reflexivity|].
  simpl. apply N.eqb_neq in Hc. by rewrite Hc, IH.
Qed.

(** What is read from a file is made of well-formed lines. *)
Lemma split_lines_ok s :
  Forall (fun c => c ≠ CR) s → lines_ok (split_lines s).
Proof.
  induction 1 as [|c s Hc _ IH]; [constructor|].
  simpl. destruct (N.eqb_spec c LF) as [->|Hlf].
  - apply (lines_ok_cons []); [constructor|done].
  - inversion IH as [|body Hne Hb|body ls Hb Hls].
    + apply lines_ok_last; [done|]. by repeat constructor.
    + apply lines_ok_last; [done|]. by constructor.
    + apply (lines_ok_cons (c :: body)); [|done]. by constructor.
Qed.

Lemma read_lines_ok s : lines_ok (split_lines (universal_newlines s)).
Proof. apply split_lines_ok, universal_newlines_no_cr. Qed.

Lemma split_lines_body body :
  body ≠ [] → no_break body → split_lines body = [body].
Proof.
  intros Hne Hb. induction Hb as [|c body [Hc _] Hb IH]; [done|].
  simpl. apply N.eqb_neq in Hc. rewrite Hc.
  destruct body as [|d body]; [reflexivity|]. by rewrite IH.
Qed.

Lemma split_lines_app_line body s :
  no_break body →
  split_lines (body ++ LF :: s) = (body ++ nl) :: split_lines s.
Proof.
  induction 1 as [|c body [Hc _] Hb IH]; [reflexivity|].
  simpl. apply N.eqb_neq in Hc. by rewrite Hc, IH.
Qed.

Lemma no_break_no_cr body : no_break body → Forall (fun c => c ≠ CR) body.
Proof. intros H. eapply Forall_impl; [exact H|]. simpl. tauto. Qed.

Lemma lines_ok_no_cr ls : lines_ok ls → Forall (fun c => c ≠ CR) (concat ls).
Proof.
  induction 1 as [|body Hne Hb|body ls Hb Hls IH]; simpl.
  - constructor.
  - rewrite app_nil_r. by apply no_break_no_cr.
  - rewrite !Forall_app. split_and!; [by apply no_break_no_cr| |done].
    by repeat constructor.
Qed.

(** Well-formed lines, written and read again, are the same lines. *)
Lemma read_back ls :
  lines_ok ls → split_lines (universal_newlines (concat ls)) = ls.
Proof.
  intros Hok. rewrite universal_newlines_id by by apply lines_ok_no_cr.
  induction Hok as [|body Hne Hb|body ls Hb Hls IH]; simpl.
  - reflexivity.
  - rewrite app_nil_r. by apply split_lines_body.
  - rewrite <- app_assoc. simpl. by rewrite split_lines_app_line, IH.
Qed.

Lemma lines_ok_tail l ls : lines_ok (l :: ls) → lines_ok ls.
Proof. inversion 1; [constructor|done]. Qed.

Lemma lines_ok_blank ls : lines_ok ls → lines_ok (nl :: ls).
Proof. apply (lines_ok_cons []). constructor. Qed.

Lemma expected_comment_no_break filepath :
  no_break filepath → no_break (expected_comment filepath).
Proof.
  intros H. unfold expected_comment. apply Forall_app. split.
  - by repeat constructor.
  - unfold replace. apply Forall_fmap. eapply Forall_impl; [exact H|].
    intros c [? ?]. simpl.
    destruct (N.eqb_spec c backslash); [done|done].
Qed.

Lemma check_header_lines_ok filepath lines :
  no_break filepath → lines_ok lines → ¬ bare_header filepath lines →
  lines_ok (check_header filepath lines).1.1.
Proof.
  intros Hp Hok Hbare.
  assert (Hhdr : ∀ ls, lines_ok ls →
            lines_ok ((expected_comment filepath ++ nl) :: ls)).
  { intros ls. by apply lines_ok_cons, expected_comment_no_break. }
  destruct lines as [|first rest].
  { apply Hhdr, lines_ok_blank. constructor. }
  pose proof (lines_ok_tail _ _ Hok) as Hrest.
  assert (Hsecond : ∀ l0 nf out,
    lines_ok (l0 :: rest) → (rest = [] → lines_ok [l0; nl]) →
    lines_ok (check_second_line filepath (l0 :: rest, nf, out)).1.1).
  { intros l0 nf out Hl0 Hsingle. destruct rest as [|second rest'].
    - rewrite check_second_line_single. by apply Hsingle.
    - destruct (decide (rstrip second = [])) as [E|E].
      + by rewrite check_second_line_blank.
      + rewrite check_second_line_nonblank by done. cbn [fst].
        inversion Hl0 as [| |body ls Hb Hls]; subst.
        by apply lines_ok_cons, lines_ok_blank. }
  rewrite check_header_cons.
  destruct (startswith (py "//") first) eqn:Hs.
  - destruct (decide (rstrip first = expected_comment filepath)) as [E|E].
    + rewrite check_first_line_ok by done. apply Hsecond; [done|].
      intros ->. inversion Hok as [|body Hne Hb|body ls Hb Hls]; subst.
      * exfalso. apply Hbare. by exists first.
      * apply lines_ok_cons; [done|]. apply lines_ok_blank. constructor.
    + rewrite check_first_line_wrong by done.
      apply Hsecond; [by apply Hhdr|].
      intros _. apply Hhdr, lines_ok_blank. constructor.
  - rewrite check_first_line_missing by done.
    rewrite check_second_line_blank by done. cbn [fst].
    by apply Hhdr, lines_ok_blank.
Qed.

(** Running twice: after a run that fixed the file, a second run finds
    it valid and leaves it alone, provided the path is not empty, does
    not end in whitespace and holds no line break, and the file was not
    the bare header line. *)
Lemma second_run_valid filepath (w w1 : world) (f : file) :
  filepath ≠ [] → rstrip filepath = filepath → no_break filepath →
  fs w !! filepath = Some f →
  ¬ bare_header filepath (split_lines (universal_newlines (content f))) →
  fix_file_header filepath w = (Val false, w1) →
  fix_file_header filepath w1 = (Val true, after_valid filepath w1).
Proof.
  intros Hne Hfix Hnb Hf Hbare H.
  destruct (fix_file_header_fixed_inv _ _ _ H)
    as (f' & lines' & out & Hf' & Hr & Hw & Hc & ->).
  rewrite Hf in Hf'. injection Hf' as <-.
  pose proof (check_header_lines_ok filepath _ Hnb
                (read_lines_ok (content f)) Hbare) as Hok.
  destruct (check_header_establishes_header filepath
              (split_lines (universal_newlines (content f))) Hne Hfix)
    as (l0 & l1 & rest & Hl & H0 & H1 & _).
  rewrite Hc in Hok, Hl. cbn [fst] in Hok, Hl. subst lines'.
  eapply (fix_file_header_valid_file _ _
            (File (concat (l0 :: l1 :: rest)) (readable f) true));
    [|done| |done|done].
  - cbn [after_fixed fs]. by rewrite lookup_insert_eq.
  - cbn [content]. by apply read_back.
Qed.

End ReadBack.

(** ** Concrete runs *)

Section Runs.

(** The scenarios of the hook's documentation: a file without header,
    one with the wrong path, one already in order. *)
Example run_missing_header :
  let w := one_file bot_js (File (line "console.log('hi')") true true) in
  (main [prog; bot_js] w).1 = Val 1%Z
  ∧ content <$> fs (main [prog; bot_js] w).2 !! bot_js
    = Some (concat [line "// src/bot.js"; nl; line "console.log('hi')"]).
Proof. by vm_compute. Qed.

Example run_wrong_path :
  let w := one_file bot_js
             (File (concat [line "// wrong/path.js"; nl; line "x = 1"])
                   true true) in
  (main [prog; bot_js] w).1 = Val 1%Z
  ∧ content <$> fs (main [prog; bot_js] w).2 !! bot_js
    = Some (concat [line "// src/bot.js"; nl; line "x = 1"]).
Proof. by vm_compute. Qed.

Example run_already_valid :
  let w := one_file bot_js
             (File (concat [line "// src/bot.js"; nl; line "x = 1"])
                   true true) in
  (main [prog; bot_js] w).1 = Val 0%Z
  ∧ fs (main [prog; bot_js] w).2 !! bot_js = fs w !! bot_js.
Proof. by vm_compute. Qed.

Lemma C4_witness :
  let w := World ∅ [] [] in
  fix_file_header bot_js w
  = (Val true,
     World ∅ [MsgErrorReading bot_js (FileNotFoundError bot_js)]
           [OpenRead bot_js])
  ∧ (main [prog; bot_js; py "src/other.js"] w).1 = Val 0%Z.
Proof.
  intros w.
  assert (H : read_lines bot_js w
              = (Raise (FileNotFoundError bot_js),
                 log_io (OpenRead bot_js) w))
    by (vm_compute; reflexivity).
  destruct (C4_read_failure_caught bot_js w _ _ H) as (Hc & _ & _ & Hm).
  split; [exact Hc|].
  apply Hm. repeat constructor.
  exists (FileNotFoundError (py "src/other.js")),
    (log_io (OpenRead (py "src/other.js")) w).
  vm_compute; reflexivity.
Defined.

(** C6, where the code departs from it: on a file made of the header
    comment alone, without a line terminator, the first run writes the
    header and one terminator and answers "fixed"; the second run finds
    no blank line, writes again and answers "fixed" again. *)
Theorem C6_second_run_fixes_again :
  let w := one_file bot_js (File (py "// src/bot.js") true true) in
  let r1 := fix_file_header bot_js w in
  let r2 := fix_file_header bot_js r1.2 in
  r1.1 = Val false
  ∧ content <$> fs r1.2 !! bot_js = Some (line "// src/bot.js")
  ∧ r2.1 = Val false
  ∧ content <$> fs r2.2 !! bot_js = Some (line "// src/bot.js" ++ nl)
  ∧ stdout r2.2 = [MsgAddedMissingBlank bot_js; MsgAddedMissingBlank bot_js]
  ∧ (main [prog; bot_js] r1.2).1 = Val 1%Z.
Proof. by vm_compute. Qed.

(** C9, where the code departs from it: for a path that ends in a
    space the header line the tool puts in never passes the tool's own
    comparison, so the lines it has just fixed need fixing again. *)
Theorem C9_path_ending_in_space :
  let filepath := py "src/bot.js " in
  let lines := [line "x = 1"] in
  let lines' := (check_header filepath lines).1.1 in
  lines' = [py "// src/bot.js " ++ nl; nl; line "x = 1"]
  ∧ rstrip (lines' !!! 0%nat) = py "// src/bot.js"
  ∧ expected_comment filepath = py "// src/bot.js "
  ∧ rstrip (lines' !!! 0%nat) ≠ expected_comment filepath
  ∧ (check_header filepath lines').1.2 = true.
Proof. vm_compute. split_and!; done. Qed.

Lemma C10_witness :
  let ci := py ".github/workflows/ci.yml" in
  let w := one_file ci (File (line "name: ci") true true) in
  main [prog; ci] w = (Val 0%Z, w)
  ∧ (main [prog; ci; bot_js] w).1 = (main [prog; bot_js] w).1.
Proof.
  intros ci w.
  assert (H : contains (py "node_modules") ci = true
              ∨ contains (py ".git") ci = true)
    by (right; vm_compute; reflexivity).
  destruct (C10_excluded_paths_skipped ci H) as (Hloop & Hmain & _).
  split.
  - pose proof (Hloop [] [] true w) as E. cbn [app] in E.
    unfold main. cbn [length Nat.ltb Nat.leb drop].
    unfold mbind, M_bind, bind. rewrite E. reflexivity.
  - exact (proj1 (Hmain prog [] [bot_js] w)).
Defined.

End Runs.

(** ** Further properties of the check-and-fix phase *)

Section MoreOnCheck.

Implicit Types (filepath first second : str) (lines rest : list str).

Lemma check_header_case filepath lines :
  header_case filepath lines (check_header filepath lines).
Proof.
  destruct lines as [|first rest]; [constructor|].
  rewrite check_header_cons.
  destruct (startswith (py "//") first) eqn:Hs.
  - destruct (decide (rstrip first = expected_comment filepath)) as [E|E].
    + rewrite check_first_line_ok by done.
      destruct rest as [|second rest'].
      * rewrite check_second_line_single. by constructor.
      * destruct (decide (rstrip second = [])) as [E2|E2].
        -- rewrite check_second_line_blank by done. by constructor.
        -- rewrite check_second_line_nonblank by done. by constructor.
    + rewrite check_first_line_wrong by done.
      destruct rest as [|second rest'].
      * rewrite check_second_line_single. by constructor.
      * destruct (decide (rstrip second = [])) as [E2|E2].
        -- rewrite check_second_line_blank by done. by constructor.
        -- rewrite check_second_line_nonblank by done. by constructor.
  - rewrite check_first_line_missing by done.
    rewrite check_second_line_blank by done. by constructor.
Qed.

(** X2: the check asks for no fix exactly when the file has at least two
    lines, the first equal to the header comment once right-trimmed and
    the second empty once right-trimmed; the lines are then left as they
    are and nothing is printed. *)
Theorem X2_check_verdict filepath lines :
  ((check_header filepath lines).1.2 = false
   ↔ ∃ first second rest,
       lines = first :: second :: rest
       ∧ rstrip first = expected_comment filepath
       ∧ rstrip second = [])
  ∧ ((check_header filepath lines).1.2 = false
     ↔ check_header filepath lines = (lines, false, [])).
Proof.
  split; split.
  - destruct (check_header_case filepath lines); cbn [fst snd]; intros Hv;
      try discriminate. eauto 10.
  - intros (f1 & s1 & r1 & -> & Hf & Hs). by rewrite check_header_valid.
  - destruct (check_header_case filepath lines); cbn [fst snd]; intros Hv;
      try discriminate. done.
  - by intros ->.
Qed.

(** X3: every fix is reported, and nothing is reported without a fix:
    the check asks for a fix exactly when it printed at least one
    message. *)
Theorem X3_fix_iff_reported filepath lines :
  (check_header filepath lines).1.2 = true
  ↔ (check_header filepath lines).2 ≠ [].
Proof.
  destruct (check_header_case filepath lines); cbn [fst snd];
    split; intros Hv; done.
Qed.

(** X4: the check never drops a line.  The lines after the first are all
    found again, in order, at the end of the result; the result has at
    least two lines, never fewer lines than the file and at most two
    more. *)
Theorem X4_no_line_dropped filepath lines :
  let lines' := (check_header filepath lines).1.1 in
  drop 1 lines `suffix_of` lines'
  ∧ (2 ≤ length lines')%nat
  ∧ (length lines ≤ length lines')%nat
  ∧ (length lines' ≤ length lines + 2)%nat.
Proof.
  destruct (check_header_case filepath lines); cbn [fst snd drop length];
    (split_and!; [|lia..]);
    solve [repeat first [done | apply suffix_nil | apply suffix_cons_r]].
Qed.

(** X5: for a path that is not empty and does not end in whitespace, the
    lines the check leaves behind pass the check: the first is the header
    comment once right-trimmed, the second is blank, and checking them
    again asks for no fix and changes nothing. *)
Theorem X5_checked_lines_pass filepath lines :
  filepath ≠ [] → rstrip filepath = filepath →
  let lines' := (check_header filepath lines).1.1 in
  rstrip (lines' !!! 0%nat) = expected_comment filepath
  ∧ rstrip (lines' !!! 1%nat) = []
  ∧ check_header filepath lines' = (lines', false, []).
Proof.
  intros Hne Hfix lines'. subst lines'.
  destruct (check_header_establishes_header filepath lines Hne Hfix)
    as (l0 & l1 & rest & -> & H0 & H1 & _).
  cbn [lookup_total list_lookup_total]. split_and!; [done|done|].
  by apply check_header_valid.
Qed.

(** X12: the header comment is "// " followed by the path with every
    backslash turned into a slash: it holds no backslash, and a path
    written with backslashes gives the same header as the path written
    with slashes. *)
Theorem X12_header_has_no_backslash filepath :
  Forall (fun c => c ≠ backslash) (expected_comment filepath)
  ∧ expected_comment (replace backslash slash filepath)
    = expected_comment filepath
  ∧ length (expected_comment filepath) = (3 + length filepath)%nat.
Proof.
  unfold expected_comment. split_and!.
  - apply Forall_app. split; [by repeat constructor|].
    unfold replace. apply Forall_fmap, Forall_forall. intros c _. simpl.
    destruct (N.eqb_spec c backslash) as [->|Hc]; done.
  - f_equal. unfold replace. induction filepath as [|c s IH]; [done|].
    cbn [map]. rewrite IH. f_equal.
    destruct (N.eqb_spec c backslash) as [->|Hc]; [done|].
    apply N.eqb_neq in Hc. by rewrite Hc.
  - unfold replace. rewrite length_app, length_map. reflexivity.
Qed.

(** X13: the skip test looks for a substring, so whatever is put before
    or after a skipped path, the longer path is skipped as well: every
    file below a "node_modules" or ".git" directory is skipped. *)
Theorem X13_skipped_extends filepath (before after : str) :
  skipped filepath = true →
  skipped (before ++ filepath ++ after) = true.
Proof.
  unfold skipped. rewrite !orb_true_iff, !contains_spec.
  intros [(a & b & ->)|(a & b & ->)]; [left|right];
    exists (before ++ a), (b ++ after); by rewrite <- !app_assoc.
Qed.

End MoreOnCheck.

(** ** Further properties of one call *)

Section MoreOnCalls.

Implicit Types (filepath first second : str) (lines rest : list str).
Implicit Types (w : world) (f : file).

(** Reading a text and writing its lines gives the text back. *)
Lemma concat_split_lines (s : str) : concat (split_lines s) = s.
Proof.
  induction s as [|c s IH]; [reflexivity|].
  simpl. destruct (c =? LF)%N.
  - simpl. by rewrite IH.
  - destruct (split_lines s) as [|l ls]; simpl in *; by rewrite <- IH.
Qed.

Lemma concat_suffix (ls1 ls2 : list str) :
  ls1 `suffix_of` ls2 → concat ls1 `suffix_of` concat ls2.
Proof. intros [k ->]. exists (concat k). apply concat_app. Qed.

Lemma check_header_tail_suffix filepath lines :
  drop 1 lines `suffix_of` (check_header filepath lines).1.1.
Proof.
  destruct (check_header_case filepath lines); cbn [fst snd drop];
    solve [repeat first [done | apply suffix_nil | apply suffix_cons_r]].
Qed.

(** The call, by whether the file could be read. *)
Lemma fix_file_header_cases filepath w :
  (∃ e w1, read_lines filepath w = (Raise e, w1)
           ∧ fix_file_header filepath w
             = (Val true, after_read_error filepath e w))
  ∨ (∃ f lines needs_fix out,
       fs w !! filepath = Some f ∧ readable f = true
       ∧ check_header filepath (split_lines (universal_newlines (content f)))
         = (lines, needs_fix, out)
       ∧ fix_file_header filepath w =
           if needs_fix then
             if writable f
             then (Val false, after_fixed filepath f lines out w)
             else (Val true, after_write_error filepath f lines out w)
           else (Val true,
                 World (fs w) (stdout w ++ out)
                       (io_log w ++ [OpenRead filepath]))).
Proof.
  destruct (read_lines filepath w) as [[lines0|e] w1] eqn:R.
  - right. unfold read_lines in R.
    destruct (fs w !! filepath) as [f|] eqn:Hf; [|discriminate].
    destruct (readable f) eqn:Hr; [|discriminate].
    destruct (check_header filepath
                (split_lines (universal_newlines (content f))))
      as [[lines nf] out] eqn:Hc.
    exists f, lines, nf, out. split_and!; [done|done|done|].
    by apply fix_file_header_readable.
  - left. exists e, w1. split; [done|]. by eapply fix_file_header_unreadable.
Qed.

(** An answer "already valid" leaves every file as it was, but for a
    file whose write raised after [open] had truncated it. *)
Lemma fix_file_header_true_keeps filepath w w' q :
  fix_file_header filepath w = (Val true, w') →
  (∀ f n, fs w !! q = Some f → mode f ≠ WriteRaises n) →
  fs w' !! q = fs w !! q.
Proof.
  destruct (fix_file_header_cases filepath w)
    as [(e & w1 & _ & ->)|(f & lines & nf & out & Hf & _ & _ & ->)].
  - by intros [= <-].
  - unfold after_write_error, failed_write_fs.
    destruct nf, (writable f); intros [= <-] Hq; try done. cbn [fs].
    destruct (mode f) as [| |n] eqn:Hm; [done|done|].
    destruct (decide (q = filepath)) as [->|Hne].
    + by destruct (Hq f n Hf).
    + by rewrite lookup_insert_ne.
Qed.

(** What the call answers and what it does to the files depends on the
    files alone, not on what was printed or opened before. *)
Lemma fix_file_header_fs_only filepath w w2 :
  fs w2 = fs w →
  (fix_file_header filepath w2).1 = (fix_file_header filepath w).1
  ∧ fs (fix_file_header filepath w2).2 = fs (fix_file_header filepath w).2.
Proof.
  intros Hfs.
  destruct (fix_file_header_cases filepath w)
    as [(e & w1 & R & ->)|(f & lines & nf & out & Hf & Hr & Hc & ->)].
  - rewrite (fix_file_header_unreadable _ _ _ _
               (read_lines_raise_fs _ _ _ _ _ R Hfs)).
    cbn [fst snd after_read_error fs]. done.
  - rewrite <- Hfs in Hf.
    rewrite (fix_file_header_readable _ _ _ _ _ _ Hf Hr Hc).
    destruct nf, (writable f);
      cbn [fst snd after_fixed after_write_error fs]; by rewrite Hfs.
Qed.

(** X1: a readable, writable file without any text gets the header
    comment and a blank line, and nothing else: the call answers "fixed",
    prints that it added the header to an empty file, and the file then
    holds the header comment followed by two line terminators. *)
Theorem X1_empty_file_gets_header filepath w f :
  fs w !! filepath = Some f → readable f = true → writable f = true →
  content f = [] →
  ∃ w', fix_file_header filepath w = (Val false, w')
        ∧ content <$> fs w' !! filepath
          = Some (expected_comment filepath ++ nl ++ nl)
        ∧ stdout w' = stdout w ++ [MsgAddedHeaderToEmpty filepath].
Proof.
  intros Hf Hr Hw Hc.
  assert (Hk : check_header filepath
                 (split_lines (universal_newlines (content f)))
               = ([expected_comment filepath ++ nl; nl], true,
                  [MsgAddedHeaderToEmpty filepath])) by by rewrite Hc.
  rewrite (fix_file_header_readable _ _ _ _ _ _ Hf Hr Hk), Hw.
  eexists. split_and!; [reflexivity| |reflexivity].
  cbn [after_fixed fs]. rewrite lookup_insert_eq. cbn [fmap option_fmap option_map content concat].
  by rewrite app_nil_r, <- app_assoc.
Qed.

(** X11: the call answers "fixed" exactly when the file was read, the
    check asked for a fix and the file could be written; the file then
    holds the concatenation of the fixed lines, its messages are those of
    the check, and it was opened once for reading and once for writing. *)
Theorem X11_fixed_iff_rewritten filepath w w' :
  fix_file_header filepath w = (Val false, w')
  ↔ ∃ f lines out,
      fs w !! filepath = Some f ∧ readable f = true ∧ writable f = true
      ∧ check_header filepath (split_lines (universal_newlines (content f)))
        = (lines, true, out)
      ∧ w' = World (<[filepath := File (concat lines) true true]> (fs w))
                   (stdout w ++ out)
                   (io_log w ++ [OpenRead filepath; OpenWrite filepath]).
Proof.
  split.
  - intros H. destruct (fix_file_header_fixed_inv _ _ _ H)
      as (f & lines & out & Hf & Hr & Hw & Hc & ->).
    exists f, lines, out. unfold after_fixed. by rewrite Hr.
  - intros (f & lines & out & Hf & Hr & Hw & Hc & ->).
    rewrite (fix_file_header_readable _ _ _ _ _ _ Hf Hr Hc), Hw.
    unfold after_fixed. by rewrite Hr.
Qed.

(** X14: a run that fixes a file keeps its text.  Whatever is new stands
    in front: the text of the lines after the first is found again at the
    end of the file, and when the first line was no comment the whole
    text, as read, follows the header comment and the blank line. *)
Theorem X14_fix_keeps_text filepath w w' f :
  fs w !! filepath = Some f →
  fix_file_header filepath w = (Val false, w') →
  let text := universal_newlines (content f) in
  ∃ written,
    content <$> fs w' !! filepath = Some written
    ∧ concat (drop 1 (split_lines text)) `suffix_of` written
    ∧ ∀ first,
        split_lines text !! 0%nat = Some first →
        startswith (py "//") first = false →
        written = expected_comment filepath ++ nl ++ nl ++ text.
Proof.
  intros Hf H text.
  destruct (fix_file_header_fixed_inv _ _ _ H)
    as (f' & lines & out & Hf' & Hr & Hw & Hc & ->).
  rewrite Hf in Hf'. injection Hf' as <-.
  exists (concat lines). cbn [after_fixed fs]. rewrite lookup_insert_eq.
  split_and!; [done| |].
  - pose proof (check_header_tail_suffix filepath (split_lines text)) as Hs.
    subst text. rewrite Hc in Hs. by apply concat_suffix.
  - intros first H0 Hs. subst text.
    destruct (split_lines (universal_newlines (content f)))
      as [|l0 rest] eqn:El; [discriminate|]. injection H0 as ->.
    rewrite check_header_cons, check_first_line_missing,
      check_second_line_blank in Hc by done.
    apply (f_equal (fun x => x.1.1)) in Hc. cbn [fst] in Hc.
    rewrite <- (concat_split_lines (universal_newlines (content f))), El, <- Hc.
    rewrite !concat_cons. by rewrite <- !app_assoc.
Qed.

(** X15: a readable file that already has the header comment on line 1
    and a blank line 2 (both up to trailing whitespace) is only read: the
    call answers "already valid", prints nothing, and does not open the
    file for writing. *)
Theorem X15_valid_file_only_read filepath w f first second rest :
  fs w !! filepath = Some f → readable f = true →
  split_lines (universal_newlines (content f)) = first :: second :: rest →
  rstrip first = expected_comment filepath →
  rstrip second = [] →
  fix_file_header filepath w
  = (Val true,
     World (fs w) (stdout w) (io_log w ++ [OpenRead filepath])).
Proof.
  intros Hf Hr Hl H1 H2.
  by rewrite (fix_file_header_valid_file _ _ _ _ _ _ Hf Hr Hl H1 H2).
Qed.

End MoreOnCalls.

(** ** A write that raises after the file was truncated *)

Section TornWrite.

Implicit Types (filepath s b : str) (lines : list str).
Implicit Types (w : world) (f : file).

Lemma expected_comment_ne filepath : expected_comment filepath ≠ [].
Proof. unfold expected_comment. discriminate. Qed.

Lemma expected_comment_app_startswith filepath s :
  startswith (py "//") (expected_comment filepath ++ s) = true.
Proof. reflexivity. Qed.

Lemma rstrip_split s :
  ∃ ws, s = rstrip s ++ ws ∧ Forall (fun c => isspace c = true) ws.
Proof.
  induction s as [|c s (ws & Hs & Hws)].
  - by exists [].
  - rewrite rstrip_cons. case_decide as E.
    + rewrite E in Hs. simpl in Hs. subst ws.
      destruct (isspace c) eqn:Hc.
      * exists (c :: s). split; [done|]. by constructor.
      * by exists s.
    + exists ws. split; [|done]. simpl. by f_equal.
Qed.

Lemma rstrip_nil_space s :
  rstrip s = [] → Forall (fun c => isspace c = true) s.
Proof.
  intros E. destruct (rstrip_split s) as (ws & Hs & Hws).
  rewrite E in Hs. by subst.
Qed.

Lemma rstrip_space s :
  Forall (fun c => isspace c = true) s → rstrip s = [].
Proof. intros H. exact (rstrip_app_space [] s H). Qed.

(** The first line of any non-empty prefix of a text that starts with a
    blank line is blank. *)
Lemma blank_prefix_first_line b (X : str) (m : nat) :
  no_break b → Forall (fun c => isspace c = true) b →
  X = [] ∨ (∃ Y, X = LF :: Y) →
  take m (b ++ X) ≠ [] →
  ∃ s0 ss, split_lines (take m (b ++ X)) = s0 :: ss ∧ rstrip s0 = [].
Proof.
  intros Hnb Hsp HX Hne.
  assert (Hin : ∀ k, take k b ≠ [] →
            ∃ s0 ss, split_lines (take k b) = s0 :: ss ∧ rstrip s0 = []).
  { intros k Hk. exists (take k b), [].
    split; [|by apply rstrip_space, Forall_take].
    apply split_lines_body; [done|]. by apply Forall_take. }
  destruct (decide (m ≤ length b)) as [Hm|Hm].
  - rewrite take_app_le in Hne |- * by done. by apply Hin.
  - rewrite take_app_ge in Hne |- * by lia.
    destruct HX as [->|[Y ->]].
    + rewrite take_nil, app_nil_r in Hne |- *.
      specialize (Hin (length b)). rewrite take_ge in Hin by done.
      by apply Hin.
    + destruct (m - length b) as [|k] eqn:Ek; [lia|]. cbn [take].
      rewrite split_lines_app_line by done.
      eexists _, _. split; [reflexivity|].
      rewrite rstrip_nl. by apply rstrip_space.
Qed.

(** The lines the check leaves behind, written up to [n] characters and
    checked again, give the same first [n] characters: a write that
    raises at the same point twice leaves the same file twice. *)
Lemma torn_rewrite_same filepath lines (n : nat) :
  filepath ≠ [] → rstrip filepath = filepath → no_break filepath →
  lines_ok lines →
  (∃ l0 l1 rest, lines = l0 :: l1 :: rest
                 ∧ rstrip l0 = expected_comment filepath ∧ rstrip l1 = []) →
  let t := take n (concat lines) in
  take n (concat (check_header filepath
                    (split_lines (universal_newlines t))).1.1) = t.
Proof.
  intros Hne Hfix Hnb Hok (l0 & l1 & rest & -> & H0 & H1) t.
  pose proof (rstrip_expected_comment _ Hne Hfix) as HE.
  pose proof (expected_comment_no_break _ Hnb) as HEnb.
  pose proof (lines_ok_no_cr _ Hok) as Hcr.
  assert (Htcr : universal_newlines t = t).
  { apply universal_newlines_id. by apply Forall_take. }
  rewrite Htcr.
  inversion Hok as [| |b0 ls Hb0 Hls [Eq0 Eqls]]. subst l0 ls. clear Hok.
  rewrite rstrip_nl in H0.
  destruct (rstrip_split b0) as (ws0 & Hb0eq & Hws0). rewrite H0 in Hb0eq.
  assert (Hl1 : l1 ≠ []).
  { inversion Hls; [done|]. by destruct body. }
  assert (Hsingle : ∀ s, s ≠ [] → no_break s → length s = n →
            (startswith (py "//") s = false
             ∨ rstrip s ≠ expected_comment filepath →
             s = take n (expected_comment filepath)) →
            take n (concat (check_header filepath [s]).1.1) = s).
  { intros s Hs Hsnb Hlen Hpre. rewrite check_header_cons.
    destruct (startswith (py "//") s) eqn:Hst.
    - destruct (decide (rstrip s = expected_comment filepath)) as [E|E].
      + rewrite check_first_line_ok, check_second_line_single by done.
        cbn [fst]. rewrite concat_cons. by apply take_app_length'.
      + rewrite check_first_line_wrong, check_second_line_single by done.
        cbn [fst]. rewrite concat_cons, <- app_assoc.
        rewrite (Hpre (or_intror E)).
        apply take_app_le. rewrite Hpre in Hlen by by right.
        rewrite length_take in Hlen. lia.
    - rewrite check_first_line_missing by done.
      rewrite check_second_line_blank by done.
      cbn [fst]. rewrite concat_cons, <- app_assoc.
      rewrite (Hpre (or_introl eq_refl)).
      apply take_app_le. rewrite Hpre in Hlen by by left.
      rewrite length_take in Hlen. lia. }
  subst t.
  match goal with
  | |- _ = take n ?T =>
      assert (HT : T = b0 ++ LF :: (l1 ++ concat rest))
        by (rewrite !concat_cons; by rewrite <- app_assoc)
  end.
  rewrite HT.
  destruct (decide (n ≤ length b0)) as [Hn|Hn].
  - (* the cut falls within the first line *)
    rewrite take_app_le by done.
    destruct (decide (take n b0 = [])) as [E|E].
    { rewrite E. apply take_nil_inv in E as [-> | ->]; [done|].
      symmetry in Hb0eq. apply app_eq_nil in Hb0eq as [HEnil _].
      by destruct (expected_comment_ne filepath). }
    rewrite split_lines_body; [|done|by apply Forall_take].
    apply Hsingle; [done|by apply Forall_take|by apply length_take_le|].
    intros Hbad. rewrite Hb0eq.
    destruct (decide (length (expected_comment filepath) ≤ n)) as [Hle|Hle];
      [|apply take_app_le; lia].
    exfalso. rewrite Hb0eq, take_app_ge in Hbad by done.
    destruct Hbad as [Hbad|Hbad].
    + by rewrite expected_comment_app_startswith in Hbad.
    + apply Hbad. rewrite rstrip_app_space; [done|]. by apply Forall_take.
  - (* the cut falls after the first line *)
    rewrite take_app_ge by lia.
    destruct (n - length b0) as [|m] eqn:Em; [lia|]. cbn [take].
    rewrite split_lines_app_line by done.
    destruct (decide (take m (l1 ++ concat rest) = [])) as [E|E].
    + rewrite E. cbn [split_lines].
      rewrite check_header_cons, check_first_line_ok,
        check_second_line_single by by rewrite rstrip_nl.
      cbn [fst]. rewrite concat_cons. apply take_app_length'.
      apply take_nil_inv in E as [-> | E].
      * rewrite length_app. simpl. lia.
      * by destruct l1.
    + assert (Hblank : ∃ s0 ss,
                split_lines (take m (l1 ++ concat rest)) = s0 :: ss
                ∧ rstrip s0 = []).
      { pose proof (rstrip_nil_space _ H1) as Hsp.
        inversion Hls as [|body Hbne Hbnb [Eb Er]|b1 ls Hb1 Hls' [Eb Er]].
        - subst. cbn [concat] in *.
          by apply blank_prefix_first_line; [| |left|].
        - subst. apply Forall_app in Hsp as [Hsp _].
          rewrite <- app_assoc in *.
          apply blank_prefix_first_line; [done|done|right; eauto|done]. }
      destruct Hblank as (s0 & ss & Hs0 & Hblank).
      rewrite Hs0, check_header_valid by by rewrite ?rstrip_nl.
      cbn [fst]. rewrite <- Hs0.
      rewrite <- (split_lines_app_line b0) by done.
      rewrite concat_split_lines.
      change (b0 ++ LF :: take m (l1 ++ concat rest))
        with (b0 ++ take (S m) (LF :: (l1 ++ concat rest))).
      rewrite <- Em, <- take_app_ge by lia.
      rewrite take_take. f_equal. lia.
Qed.

(** Calling again right after a call: the second call answers "already
    valid" and leaves every file as the first call left it. *)
Lemma second_call_stable filepath w f r wa :
  filepath ≠ [] → rstrip filepath = filepath → no_break filepath →
  fs w !! filepath = Some f →
  ¬ bare_header filepath (split_lines (universal_newlines (content f))) →
  fix_file_header filepath w = (r, wa) →
  (fix_file_header filepath wa).1 = Val true
  ∧ fs (fix_file_header filepath wa).2 = fs wa.
Proof.
  intros Hne Hfix Hnb Hf Hbare H.
  destruct (fix_file_header_cases filepath w)
    as [(e & w1 & R & Hc)|(f' & lines & nf & out & Hf' & Hr & Hk & Hc)].
  - rewrite Hc in H. injection H as <- <-.
    by rewrite (fix_file_header_unreadable _ _ _ _
                  (read_lines_raise_fs _ _ _ _
                     (after_read_error filepath e w) R eq_refl)).
  - rewrite Hf in Hf'. injection Hf' as <-.
    destruct nf.
    + unfold writable in Hc. destruct (mode f) as [| |n] eqn:Hm.
      * rewrite H in Hc. injection Hc as -> ->.
        by rewrite (second_run_valid _ _ _ _ Hne Hfix Hnb Hf Hbare H).
      * rewrite Hc in H. injection H as <- <-.
        assert (Hfa : fs (after_write_error filepath f lines out w)
                        !! filepath = Some f).
        { unfold after_write_error, failed_write_fs. by rewrite Hm. }
        rewrite (fix_file_header_readable _ _ _ _ _ _ Hfa Hr Hk).
        unfold writable. rewrite Hm. split; [done|].
        unfold after_write_error at 1, failed_write_fs at 1.
        by rewrite Hm.
      * rewrite Hc in H. injection H as <- <-.
        set (f1 := MkFile (take n (concat lines)) (readable f)
                          (WriteRaises n)).
        assert (Hfa : fs (after_write_error filepath f lines out w)
                        !! filepath = Some f1).
        { unfold after_write_error, failed_write_fs. rewrite Hm.
          cbn [fs]. by rewrite lookup_insert_eq. }
        destruct (check_header filepath
                    (split_lines (universal_newlines (content f1))))
          as [[lines2 nf2] out2] eqn:Hk2.
        rewrite (fix_file_header_readable _ _ _ _ _ _ Hfa Hr Hk2).
        destruct nf2; [|done]. unfold writable. cbn [f1 mode].
        split; [done|].
        unfold after_write_error at 1, failed_write_fs at 1. cbn [f1 mode fs].
        apply insert_id. rewrite Hfa. unfold f1. do 2 f_equal.
        pose proof (check_header_lines_ok filepath _ Hnb
                      (read_lines_ok (content f)) Hbare) as Hok.
        pose proof (check_header_establishes_header filepath
                      (split_lines (universal_newlines (content f)))
                      Hne Hfix) as (l0 & l1 & rest & Hl & Hl0 & Hl1 & _).
        rewrite Hk in Hok, Hl. cbn [fst] in Hok, Hl.
        pose proof (torn_rewrite_same filepath lines n Hne Hfix Hnb Hok
                      ltac:(by exists l0, l1, rest)) as Ht.
        cbn zeta in Ht. cbn [f1 content] in Hk2. by rewrite Hk2 in Ht.
    + rewrite Hc in H. injection H as <- <-.
      assert (Hfa : fs (World (fs w) (stdout w ++ out)
                          (io_log w ++ [OpenRead filepath]))
                      !! filepath = Some f) by done.
      by rewrite (fix_file_header_readable _ _ _ _ _ _ Hfa Hr Hk).
Qed.

End TornWrite.

(** ** Further properties of the driver *)

Section MoreOnDriver.

Implicit Types (filepath : str) (files argv : list str).
Implicit Types (w : world) (all_valid : bool).

(** The loop opens and changes only files it was given and did not
    skip. *)
Lemma main_loop_touches files all_valid w r w' :
  main_loop files all_valid w = (r, w') →
  (∀ q, q ∉ files → fs w' !! q = fs w !! q)
  ∧ ∃ new, io_log w' = io_log w ++ new
           ∧ Forall (fun e => event_path e ∈ files
                              ∧ skipped (event_path e) = false) new.
Proof.
  revert all_valid w; induction files as [|p files IH]; intros av w H.
  - injection H as <- <-. split; [done|]. exists []. by rewrite app_nil_r.
  - assert (Hweaken : ∀ new,
      Forall (fun e => event_path e ∈ files
                       ∧ skipped (event_path e) = false) new →
      Forall (fun e => event_path e ∈ p :: files
                       ∧ skipped (event_path e) = false) new).
    { intros new Hall. eapply Forall_impl; [exact Hall|]. simpl.
      intros e [? ?]. split; [apply elem_of_cons; by right|done]. }
    destruct (skipped p) eqn:Hs.
    + rewrite main_loop_skip in H by done.
      destruct (IH _ _ H) as (Hfs & new & Hlog & Hall).
      split.
      * intros q Hq. apply not_elem_of_cons in Hq as [_ Hq]. by apply Hfs.
      * exists new. split; [done|]. by apply Hweaken.
    + destruct (fix_file_header_returns p w) as (ok & w1 & Hc).
      rewrite (main_loop_call _ _ _ _ _ _ Hs Hc) in H.
      destruct (IH _ _ H) as (Hfs & new2 & Hlog & Hall).
      destruct (fix_file_header_frame _ _ _ _ Hc)
        as (Hfs1 & new1 & Hlog1 & Hall1).
      split.
      * intros q Hq. apply not_elem_of_cons in Hq as [Hne Hq].
        by rewrite Hfs, Hfs1.
      * exists (new1 ++ new2). split; [by rewrite Hlog, Hlog1, app_assoc|].
        apply Forall_app; split; [|by apply Hweaken].
        eapply Forall_impl; [exact Hall1|]. simpl. intros e ->.
        split; [apply elem_of_cons; by left|done].
Qed.

(** A loop that ends with [all_valid] true has changed no file, but for
    files whose write raised after [open] had truncated them. *)
Lemma main_loop_valid_keeps files all_valid w w' q :
  main_loop files all_valid w = (Val true, w') →
  (∀ f n, fs w !! q = Some f → mode f ≠ WriteRaises n) →
  fs w' !! q = fs w !! q.
Proof.
  revert all_valid w; induction files as [|p files IH]; intros av w H Hq.
  - by injection H as _ <-.
  - destruct (skipped p) eqn:Hs.
    + rewrite main_loop_skip in H by done. by eapply IH.
    + destruct (fix_file_header_returns p w) as (ok & w1 & Hc).
      rewrite (main_loop_call _ _ _ _ _ _ Hs Hc) in H.
      destruct ok.
      * pose proof (fix_file_header_true_keeps _ _ _ q Hc Hq) as H1.
        rewrite <- H1. eapply IH; [exact H|]. by rewrite H1.
      * destruct (main_loop_outcomes files (if negb false then false else av) w1)
          as [w2 Ho]. rewrite Ho in H. discriminate.
Qed.

(** A file that came back "fixed" was opened for writing by the loop. *)
Lemma outcomes_fixed_written files all_valid w r w' filepath :
  (filepath, false) ∈ outcomes files w →
  main_loop files all_valid w = (r, w') →
  filepath ∈ files ∧ skipped filepath = false
  ∧ ∃ new, io_log w' = io_log w ++ new ∧ OpenWrite filepath ∈ new.
Proof.
  revert all_valid w; induction files as [|p files IH]; intros av w Hin H.
  - by apply elem_of_nil in Hin.
  - simpl in Hin. destruct (skipped p) eqn:Hs.
    + rewrite main_loop_skip in H by done.
      destruct (IH _ _ Hin H) as (? & ? & new & ? & ?).
      split_and!; [apply elem_of_cons; by right|done|by exists new].
    + destruct (fix_file_header_returns p w) as (ok & w1 & Hc).
      rewrite Hc in Hin. rewrite (main_loop_call _ _ _ _ _ _ Hs Hc) in H.
      destruct (fix_file_header_frame _ _ _ _ Hc) as (_ & new1 & Hlog1 & _).
      apply elem_of_cons in Hin as [Heq|Hin].
      * injection Heq as -> <-.
        destruct (main_loop_touches _ _ _ _ _ H) as (_ & new2 & Hlog2 & _).
        destruct (fix_file_header_fixed_inv _ _ _ Hc)
          as (f & lines & out & _ & _ & _ & _ & ->).
        split_and!; [apply elem_of_cons; by left|done|].
        exists ([OpenRead p; OpenWrite p] ++ new2).
        cbn [after_fixed io_log] in Hlog2.
        split; [by rewrite Hlog2, <- app_assoc|].
        apply elem_of_app. left. apply elem_of_cons. right.
        apply elem_of_cons. by left.
      * destruct (IH _ _ Hin H) as (? & ? & new2 & Hlog2 & ?).
        split_and!; [apply elem_of_cons; by right|done|].
        exists (new1 ++ new2).
        split; [by rewrite Hlog2, Hlog1, app_assoc|].
        apply elem_of_app. by right.
Qed.

(** [main] on one file. *)
Lemma main_single (prog0 filepath : str) w :
  main [prog0; filepath] w =
    if skipped filepath then (Val 0%Z, w)
    else match fix_file_header filepath w with
         | (Val true, w') => (Val 0%Z, w')
         | (Val false, w') =>
             (Val 1%Z,
              World (fs w') (stdout w' ++ [MsgFilesFixed]) (io_log w'))
         | (Raise e, w') => (Raise e, w')
         end.
Proof.
  unfold main. cbn [length Nat.ltb Nat.leb drop main_loop].
  unfold mbind, M_bind, bind. destruct (skipped filepath); [done|].
  destruct (fix_file_header filepath w) as [[[|]|e] w']; done.
Qed.

(** X7: [main] opens and changes only files named in its arguments: a
    file that is not an argument is left as it was, and every [open]
    names an argument that was not skipped. *)
Theorem X7_main_touches_only_arguments argv w :
  (∀ q, q ∉ drop 1 argv → fs (main argv w).2 !! q = fs w !! q)
  ∧ ∃ new, io_log (main argv w).2 = io_log w ++ new
           ∧ Forall (fun e => event_path e ∈ drop 1 argv
                              ∧ skipped (event_path e) = false) new.
Proof.
  destruct (main_world argv w) as [out ->]. cbn [fs io_log].
  destruct (main_loop (drop 1 argv) true w) as [r wl] eqn:E.
  by eapply main_loop_touches.
Qed.

(** X8: a run that exits with 0 has completed no write: every file is
    as it was, but for a file whose write raised after [open] had
    truncated it. *)
Theorem X8_exit_0_completes_no_write argv w :
  (main argv w).1 = Val 0%Z →
  ∀ q, (∀ f n, fs w !! q = Some f → mode f ≠ WriteRaises n) →
       fs (main argv w).2 !! q = fs w !! q.
Proof.
  intros H q Hq. rewrite main_exit_code in H.
  destruct (main_world argv w) as [out ->]. cbn [fs].
  destruct (main_loop_outcomes (drop 1 argv) true w) as [wl Hl].
  rewrite Hl. cbn [snd]. eapply main_loop_valid_keeps; [|done].
  rewrite Hl. cbn [andb].
  by destruct (forallb snd (outcomes (drop 1 argv) w)).
Qed.

(** X9: a run that exits with 1 has opened for writing at least one of
    the files named in its arguments and not skipped. *)
Theorem X9_exit_1_wrote_a_file argv w :
  (main argv w).1 = Val 1%Z →
  ∃ filepath new,
    filepath ∈ drop 1 argv ∧ skipped filepath = false
    ∧ io_log (main argv w).2 = io_log w ++ new
    ∧ OpenWrite filepath ∈ new.
Proof.
  intros H. rewrite main_exit_code in H.
  destruct (forallb snd (outcomes (drop 1 argv) w)) eqn:E; [discriminate|].
  apply forallb_snd_false in E as [p Hp].
  destruct (main_world argv w) as [out ->]. cbn [io_log].
  destruct (main_loop (drop 1 argv) true w) as [r wl] eqn:El.
  destruct (outcomes_fixed_written _ _ _ _ _ _ Hp El)
    as (? & ? & new & ? & ?).
  by exists p, new.
Qed.

(** X10: whatever the files and their permissions, no exception raised by
    [open] leaves [main]: it returns, and the exit code is 0 or 1. *)
Theorem X10_main_exits_0_or_1 argv w :
  (main argv w).1 = Val 0%Z ∨ (main argv w).1 = Val 1%Z.
Proof.
  rewrite main_exit_code.
  destruct (forallb snd (outcomes (drop 1 argv) w)); [by left|by right].
Qed.

(** X6: running the hook a second time on the same file.  For a path
    that is not empty, does not end in whitespace and holds no line
    break, and a file that is not the bare header line without its
    terminator, the second run exits with 0 and changes no file, whatever
    the first run did. *)
Theorem X6_second_run_passes (prog0 filepath : str) w f :
  filepath ≠ [] → rstrip filepath = filepath → no_break filepath →
  fs w !! filepath = Some f →
  ¬ bare_header filepath (split_lines (universal_newlines (content f))) →
  let w1 := (main [prog0; filepath] w).2 in
  (main [prog0; filepath] w1).1 = Val 0%Z
  ∧ fs (main [prog0; filepath] w1).2 = fs w1.
Proof.
  intros Hne Hfix Hnb Hf Hbare w1. subst w1.
  rewrite !main_single. destruct (skipped filepath); [done|].
  destruct (fix_file_header filepath w) as [r wa] eqn:Hc.
  destruct (second_call_stable _ _ _ _ _ Hne Hfix Hnb Hf Hbare Hc)
    as [Hv Hs].
  assert (Hgo : ∀ w1, fs w1 = fs wa →
            (match fix_file_header filepath w1 with
             | (Val true, w') => (Val 0%Z, w')
             | (Val false, w') =>
                 (Val 1%Z,
                  World (fs w') (stdout w' ++ [MsgFilesFixed]) (io_log w'))
             | (Raise e, w') => (Raise e, w')
             end).1 = Val 0%Z
            ∧ fs (match fix_file_header filepath w1 with
                  | (Val true, w') => (Val 0%Z, w')
                  | (Val false, w') =>
                      (Val 1%Z,
                       World (fs w') (stdout w' ++ [MsgFilesFixed])
                             (io_log w'))
                  | (Raise e, w') => (Raise e, w')
                  end).2 = fs w1).
  { intros w1 Hfs.
    destruct (fix_file_header_fs_only filepath wa w1 Hfs) as [Hv1 Hs1].
    rewrite Hv in Hv1. rewrite Hs in Hs1.
    destruct (fix_file_header filepath w1) as [r2 w2].
    cbn [fst snd] in Hv1, Hs1. subst r2. cbn [fst snd]. by rewrite Hfs. }
  destruct r as [[|]|e]; cbn [snd]; by apply Hgo.
Qed.

End MoreOnDriver.

(** ** More concrete runs *)

Section MoreRuns.

Lemma X1_witness :
  let f := File [] true true in
  let w := one_file bot_js f in
  ∃ w', fix_file_header bot_js w = (Val false, w')
        ∧ content <$> fs w' !! bot_js
          = Some (expected_comment bot_js ++ nl ++ nl)
        ∧ stdout w' = stdout w ++ [MsgAddedHeaderToEmpty bot_js].
Proof.
  intros f w.
  refine (X1_empty_file_gets_header bot_js w f _ _ _ _);
    vm_compute; reflexivity.
Defined.

Lemma X5_witness :
  let lines' := (check_header bot_js [line "x = 1"]).1.1 in
  rstrip (lines' !!! 0%nat) = expected_comment bot_js
  ∧ rstrip (lines' !!! 1%nat) = []
  ∧ check_header bot_js lines' = (lines', false, []).
Proof.
  refine (X5_checked_lines_pass bot_js [line "x = 1"] _ _);
    vm_compute; (reflexivity || discriminate).
Defined.

Lemma X6_witness :
  let f := File (concat [line "// wrong/path.js"; line "x = 1"]) true true in
  let w := one_file bot_js f in
  let w1 := (main [prog; bot_js] w).2 in
  (main [prog; bot_js] w).1 = Val 1%Z
  ∧ (main [prog; bot_js] w1).1 = Val 0%Z
  ∧ fs (main [prog; bot_js] w1).2 = fs w1.
Proof.
  intros f w w1. split; [vm_compute; reflexivity|].
  refine (X6_second_run_passes prog bot_js w f _ _ _ _ _).
  - vm_compute; discriminate.
  - vm_compute; reflexivity.
  - apply (bool_decide_unpack _). vm_compute. exact I.
  - vm_compute; reflexivity.
  - intros (body & Hl & _). vm_compute in Hl. discriminate.
Defined.

Lemma X8_witness :
  let f := File (line "x = 1") true false in
  let w := one_file bot_js f in
  (main [prog; bot_js] w).1 = Val 0%Z
  ∧ fs (main [prog; bot_js] w).2 !! bot_js = fs w !! bot_js.
Proof.
  intros f w.
  assert (H : (main [prog; bot_js] w).1 = Val 0%Z) by (vm_compute; reflexivity).
  split; [exact H|].
  refine (X8_exit_0_completes_no_write [prog; bot_js] w H bot_js _).
  intros f0 n Hf. vm_compute in Hf. injection Hf as <-. discriminate.
Defined.

Lemma X9_witness :
  let f := File (line "console.log('hi')") true true in
  let w := one_file bot_js f in
  ∃ filepath new,
    filepath ∈ drop 1 [prog; bot_js] ∧ skipped filepath = false
    ∧ io_log (main [prog; bot_js] w).2 = io_log w ++ new
    ∧ OpenWrite filepath ∈ new.
Proof.
  intros f w.
  refine (X9_exit_1_wrote_a_file [prog; bot_js] w _).
  vm_compute; reflexivity.
Defined.

Lemma X13_witness :
  skipped (py "web/" ++ py "node_modules" ++ py "/lib/index.js") = true.
Proof.
  refine (X13_skipped_extends (py "node_modules") (py "web/")
            (py "/lib/index.js") _).
  vm_compute; reflexivity.
Defined.

Lemma X14_witness :
  let f := File (line "console.log('hi')") true true in
  let w := one_file bot_js f in
  let text := universal_newlines (content f) in
  ∃ written,
    content <$> fs (fix_file_header bot_js w).2 !! bot_js = Some written
    ∧ concat (drop 1 (split_lines text)) `suffix_of` written
    ∧ ∀ first,
        split_lines text !! 0%nat = Some first →
        startswith (py "//") first = false →
        written = expected_comment bot_js ++ nl ++ nl ++ text.
Proof.
  intros f w.
  refine (X14_fix_keeps_text bot_js w _ f _ _); vm_compute; reflexivity.
Defined.

Lemma X15_witness :
  let f := File (concat [line "// src/bot.js"; nl; line "x = 1"]) true true in
  let w := one_file bot_js f in
  fix_file_header bot_js w
  = (Val true, World (fs w) (stdout w) (io_log w ++ [OpenRead bot_js])).
Proof.
  intros f w.
  refine (X15_valid_file_only_read bot_js w f (line "// src/bot.js") nl
            [line "x = 1"] _ _ _ _ _); vm_compute; reflexivity.
Defined.

End MoreRuns.

(** ** What a call leaves in the file *)

Section FileLevel.

Implicit Types (filepath first second : str) (lines rest : list str).
Implicit Types (w : world) (f : file).

(** A call that goes through with a fix: the file then holds the fixed
    lines, and reads back as those lines when the path holds no line
    break and the file was not the bare header line. *)
Lemma fixed_file filepath w f lines out :
  fs w !! filepath = Some f → readable f = true → writable f = true →
  check_header filepath (file_lines f) = (lines, true, out) →
  ∃ w' f',
    fix_file_header filepath w = (Val false, w')
    ∧ fs w' !! filepath = Some f'
    ∧ content f' = concat lines
    ∧ (no_break filepath → ¬ bare_header filepath (file_lines f) →
       file_lines f' = lines)
    ∧ ∀ q, q ≠ filepath → fs w' !! q = fs w !! q.
Proof.
  intros Hf Hr Hw Hk. unfold file_lines in Hk.
  rewrite (fix_file_header_readable _ _ _ _ _ _ Hf Hr Hk), Hw.
  exists (after_fixed filepath f lines out w),
    (File (concat lines) (readable f) true).
  cbn [after_fixed fs]. split_and!; [done|by rewrite lookup_insert_eq|done| |].
  - intros Hnb Hbare. unfold file_lines in *. cbn [File content].
    apply read_back.
    pose proof (check_header_lines_ok filepath _ Hnb
                  (read_lines_ok (content f)) Hbare) as Hok.
    by rewrite Hk in Hok.
  - intros q Hq. by rewrite lookup_insert_ne.
Qed.


(** C7, as the code has it: on a non-empty file whose first line does
    not start with the comment marker, for a path without line break,
    the file is rewritten with exactly two lines in front, the header
    comment and a blank line; every line of the file as read in text
    mode is found again two positions further down, in order, its text
    unchanged and its terminator written as a line feed; a file without
    carriage return is kept character for character after the two new
    lines. *)
Theorem C7_header_prepended filepath w f first :
  fs w !! filepath = Some f → readable f = true → writable f = true →
  no_break filepath →
  file_lines f !! 0%nat = Some first →
  startswith (py "//") first = false →
  ∃ w' f',
    fix_file_header filepath w = (Val false, w')
    ∧ fs w' !! filepath = Some f'
    ∧ file_lines f' = (expected_comment filepath ++ nl) :: nl :: file_lines f
    ∧ (∀ i, file_lines f' !! (2 + i)%nat = file_lines f !! i)
    ∧ content f'
      = expected_comment filepath ++ nl ++ nl ++ universal_newlines (content f)
    ∧ (Forall (fun c => c ≠ CR) (content f) →
       content f' = expected_comment filepath ++ nl ++ nl ++ content f)
    ∧ ∀ q, q ≠ filepath → fs w' !! q = fs w !! q.
Proof.
  intros Hf Hr Hw Hnb H0 Hs.
  destruct (file_lines f) as [|l0 ls] eqn:El; [discriminate|].
  injection H0 as ->.
  assert (Hk : check_header filepath (file_lines f)
               = ((expected_comment filepath ++ nl) :: nl :: first :: ls,
                  true, [MsgAddedMissingHeader filepath])).
  { rewrite El, check_header_cons, check_first_line_missing by done.
    by apply check_second_line_blank. }
  destruct (fixed_file _ _ _ _ _ Hf Hr Hw Hk)
    as (w' & f' & Hc & Hf' & Hcont & Hlines & Hframe).
  assert (Htext : content f'
            = expected_comment filepath ++ nl ++ nl
              ++ universal_newlines (content f)).
  { assert (Hcat : concat (first :: ls) = universal_newlines (content f)).
    { rewrite <- El. apply concat_split_lines. }
    rewrite Hcont.
    change (concat ((expected_comment filepath ++ nl) :: nl :: first :: ls))
      with ((expected_comment filepath ++ nl) ++ nl ++ concat (first :: ls)).
    by rewrite Hcat, <- app_assoc. }
  exists w', f'. split_and!; [done|done| | |done| |done].
  - apply Hlines; [done|]. rewrite El. intros (body & [= ->] & _ & Hb).
    by rewrite <- startswith_comment_rstrip, Hb,
      expected_comment_startswith in Hs.
  - intros i. rewrite Hlines; [done|done|]. rewrite El.
    intros (body & [= ->] & _ & Hb).
    by rewrite <- startswith_comment_rstrip, Hb,
      expected_comment_startswith in Hs.
  - intros Hcr. by rewrite Htext, universal_newlines_id.
Qed.



(** C2, as the code has it: when the tool writes a file back, the path
    holding no line break and the file not being the bare header line
    without its terminator, line 1 of the written content is either
    exactly the header comment with its terminator, put there by the
    tool, or the file's own first line, equal to the header comment once
    right-trimmed; line 2 is either exactly the bare terminator, put
    there by the tool, or the file's own second line, empty once
    right-trimmed. *)
Theorem C2_written_first_two_lines filepath w w' f :
  fs w !! filepath = Some f →
  fix_file_header filepath w = (Val false, w') →
  no_break filepath →
  ¬ bare_header filepath (file_lines f) →
  ∃ f' l0 l1 rest,
    fs w' !! filepath = Some f'
    ∧ file_lines f' = l0 :: l1 :: rest
    ∧ (l0 = expected_comment filepath ++ nl
       ∨ file_lines f !! 0%nat = Some l0
         ∧ rstrip l0 = expected_comment filepath)
    ∧ (l1 = nl ∨ file_lines f !! 1%nat = Some l1 ∧ rstrip l1 = []).
Proof.
  intros Hf H Hnb Hbare.
  destruct (fix_file_header_fixed_inv _ _ _ H)
    as (f0 & lines & out & Hf0 & Hr & Hw & Hk & _).
  rewrite Hf in Hf0. injection Hf0 as <-.
  destruct (fixed_file _ _ _ _ _ Hf Hr Hw Hk)
    as (w2 & f' & Hc & Hf' & _ & Hlines & _).
  rewrite H in Hc. injection Hc as <-.
  destruct (check_header_first_two filepath (file_lines f))
    as (l0 & l1 & rest & Hl & H0 & H1).
  exists f', l0, l1, rest. rewrite (Hlines Hnb Hbare).
  unfold file_lines in Hl, Hk. rewrite Hk in Hl. by split_and!.
Qed.

(** C3, as the code has it: when a fix was decided and the write-back
    raises, the call prints what it meant to fix and then the write
    error, and answers "already valid", so that this file does not make
    the exit code 1.  The write did not go through: the file is untouched
    when [open] raised, and otherwise holds only the part of the new text
    that had reached it; no other file changes. *)
Theorem C3_write_failure_answers_valid filepath w f lines out e w2 :
  fs w !! filepath = Some f → readable f = true →
  check_header filepath (file_lines f) = (lines, true, out) →
  write_lines filepath lines
    (World (fs w) (stdout w ++ out) (io_log w ++ [OpenRead filepath]))
    = (Raise e, w2) →
  fix_file_header filepath w
  = (Val true,
     World (fs w2) (stdout w ++ out ++ [MsgErrorWriting filepath e])
           (io_log w ++ [OpenRead filepath; OpenWrite filepath]))
  ∧ (∀ prog0, (main [prog0; filepath] w).1 = Val 0%Z)
  ∧ (∀ q, q ≠ filepath → fs w2 !! q = fs w !! q)
  ∧ (mode f = OpenRaises ∧ fs w2 = fs w
     ∨ ∃ kept, mode f = WriteRaises kept
               ∧ fs w2 !! filepath
                 = Some (MkFile (take kept (concat lines)) (readable f)
                                (WriteRaises kept))).
Proof.
  intros Hf Hr Hk Hwr. unfold file_lines in Hk.
  pose proof (fix_file_header_readable _ _ _ _ _ _ Hf Hr Hk) as Hc.
  unfold write_lines in Hwr. cbn [fs log_io] in Hwr. rewrite Hf in Hwr.
  unfold writable, after_write_error, write_exn, failed_write_fs in Hc.
  assert (Hcall : fix_file_header filepath w
    = (Val true,
       World (fs w2) (stdout w ++ out ++ [MsgErrorWriting filepath e])
             (io_log w ++ [OpenRead filepath; OpenWrite filepath]))
    ∧ (∀ q, q ≠ filepath → fs w2 !! q = fs w !! q)
    ∧ (mode f = OpenRaises ∧ fs w2 = fs w
       ∨ ∃ kept, mode f = WriteRaises kept
                 ∧ fs w2 !! filepath
                   = Some (MkFile (take kept (concat lines)) (readable f)
                                  (WriteRaises kept)))).
  { destruct (mode f) as [| |kept] eqn:Hm; [discriminate| |];
      injection Hwr as <- <-; cbn [fs].
    - split_and!; [done|done|by left].
    - split_and!; [done| |right; exists kept].
      + intros q Hq. by rewrite lookup_insert_ne.
      + by rewrite lookup_insert_eq. }
  destruct Hcall as (Hcall & Hframe & Hfile).
  split_and!; [done| |done|done].
  intros prog0. rewrite main_single, Hcall. by destruct (skipped filepath).
Qed.

End FileLevel.

(** ** Concrete runs on files *)

Section FileRuns.

(** Why the path is asked to hold no line break: with one, the header
    comment the tool writes spans two lines of the file. *)
Example run_path_with_line_break :
  let filepath := py "a" ++ [LF] ++ py "b.js" in
  let r := fix_file_header filepath
             (one_file filepath (File (line "x = 1") true true)) in
  r.1 = Val false
  ∧ file_lines <$> fs r.2 !! filepath
    = Some [line "// a"; line "b.js"; nl; line "x = 1"].
Proof. by vm_compute. Qed.



(** C2 does not hold as stated: a first line that matches up to
    trailing spaces is written back with its spaces. *)
Lemma C2_counterexample :
  let w := one_file bot_js
             (File (concat [py "// src/bot.js  " ++ nl; line "x = 1"])
                   true true) in
  let r := fix_file_header bot_js w in
  r.1 = Val false
  ∧ io_log r.2 = [OpenRead bot_js; OpenWrite bot_js]
  ∧ file_lines <$> fs r.2 !! bot_js
    = Some [py "// src/bot.js  " ++ nl; nl; line "x = 1"]
  ∧ py "// src/bot.js  " ++ nl ≠ expected_comment bot_js ++ nl.
Proof. vm_compute. split_and!; done. Qed.

Lemma C2_witness :
  let f := File (concat [py "// src/bot.js  " ++ nl; line "x = 1"])
                true true in
  let w := one_file bot_js f in
  ∃ f' l0 l1 rest,
    fs (fix_file_header bot_js w).2 !! bot_js = Some f'
    ∧ file_lines f' = l0 :: l1 :: rest
    ∧ (l0 = expected_comment bot_js ++ nl
       ∨ file_lines f !! 0%nat = Some l0
         ∧ rstrip l0 = expected_comment bot_js)
    ∧ (l1 = nl ∨ file_lines f !! 1%nat = Some l1 ∧ rstrip l1 = []).
Proof.
  intros f w.
  refine (C2_written_first_two_lines bot_js w _ f _ _ _ _).
  - vm_compute; reflexivity.
  - vm_compute; reflexivity.
  - apply (bool_decide_unpack _). vm_compute. exact I.
  - intros (body & Hl & _). vm_compute in Hl. discriminate.
Defined.

(** C3 does not hold as stated: when the write fails the call answers
    "already valid" and the run exits with 0, here with the file left
    empty by the [open] that went before the failure. *)
Lemma C3_counterexample :
  let f := MkFile (line "x = 1") true (WriteRaises 0) in
  let w := one_file bot_js f in
  (read_lines bot_js w).1 = Val (file_lines f)
  ∧ (check_header bot_js (file_lines f)).1.2 = true
  ∧ (write_lines bot_js (check_header bot_js (file_lines f)).1.1 w).1
    = Raise (OSError bot_js)
  ∧ (fix_file_header bot_js w).1 = Val true
  ∧ (fix_file_header bot_js w).1 ≠ Val false
  ∧ content <$> fs (fix_file_header bot_js w).2 !! bot_js = Some []
  ∧ (main [prog; bot_js] w).1 = Val 0%Z.
Proof. vm_compute. split_and!; done. Qed.

Lemma C3_witness :
  let f := MkFile (line "x = 1") true (WriteRaises 3) in
  let w := one_file bot_js f in
  (fix_file_header bot_js w).1 = Val true
  ∧ stdout (fix_file_header bot_js w).2
    = [MsgAddedMissingHeader bot_js; MsgErrorWriting bot_js (OSError bot_js)]
  ∧ content <$> fs (fix_file_header bot_js w).2 !! bot_js = Some (py "// ")
  ∧ (main [prog; bot_js] w).1 = Val 0%Z.
Proof.
  intros f w.
  destruct (C3_write_failure_answers_valid bot_js w f
              [line "// src/bot.js"; nl; line "x = 1"]
              [MsgAddedMissingHeader bot_js] (OSError bot_js)
              (write_lines bot_js [line "// src/bot.js"; nl; line "x = 1"]
                 (World (fs w) (stdout w ++ [MsgAddedMissingHeader bot_js])
                        (io_log w ++ [OpenRead bot_js]))).2)
    as (Hc & Hm & _ & _).
  - vm_compute; reflexivity.
  - vm_compute; reflexivity.
  - vm_compute; reflexivity.
  - vm_compute; reflexivity.
  - rewrite Hc. split_and!; [done|by vm_compute|by vm_compute|apply Hm].
Defined.

(** C7 does not hold as stated: in a file with DOS line ends the lines
    of the file do not come out unchanged, their terminators being
    written as line feeds. *)
Lemma C7_counterexample :
  let f := File (crlf_line "console.log('hi')") true true in
  let r := fix_file_header bot_js (one_file bot_js f) in
  file_lines f = [line "console.log('hi')"]
  ∧ startswith (py "//") (crlf_line "console.log('hi')") = false
  ∧ r.1 = Val false
  ∧ content <$> fs r.2 !! bot_js
    = Some (concat [line "// src/bot.js"; nl; line "console.log('hi')"])
  ∧ content <$> fs r.2 !! bot_js
    ≠ Some (concat [line "// src/bot.js"; nl; crlf_line "console.log('hi')"]).
Proof. vm_compute. split_and!; done. Qed.

Lemma C7_witness :
  let f := File (line "console.log('hi')") true true in
  let w := one_file bot_js f in
  ∃ w' f',
    fix_file_header bot_js w = (Val false, w')
    ∧ fs w' !! bot_js = Some f'
    ∧ file_lines f' = [line "// src/bot.js"; nl; line "console.log('hi')"]
    ∧ content f'
      = concat [line "// src/bot.js"; nl; line "console.log('hi')"].
Proof.
  intros f w.
  destruct (C7_header_prepended bot_js w f (line "console.log('hi')"))
    as (w' & f' & Hc & Hf' & Hl & _ & Ht & _).
  - vm_compute; reflexivity.
  - vm_compute; reflexivity.
  - vm_compute; reflexivity.
  - apply (bool_decide_unpack _). vm_compute. exact I.
  - vm_compute; reflexivity.
  - vm_compute; reflexivity.
  - exists w', f'. split_and!; [exact Hc|exact Hf'|exact Hl|exact Ht].
Defined.



End FileRuns.
